(** * gqlgen: schema-to-query code generator (src/index.js)

    A shallow embedding of the generator: the schema AST as the GraphQL
    library hands it over, the type catalog builder
    ([findOperationsAndTypes]), the type-name helper ([getTypeName]), the
    selection synthesizer ([generateCodeForOperation] with its inner
    [selectFields]) and the two command handlers, run over an explicit
    world (files of the working directory, standard output, requests sent).

    The JS [Map] of the catalog is a [gmap string _]; the array [code] that
    the synthesizer pushes onto is a [list string] threaded through the
    calls; exceptions are [None]. *)

From stdpp Require Import gmap strings list fin_maps.
From Stdlib Require Import Ascii.


(* ===================================================================== *)
(** ** The schema AST (graphql-js nodes, the parts the program reads)     *)
(* ===================================================================== *)

(** [graphql.TypeNode]: [node.kind] is "NamedType", "ListType" or
    "NonNullType". *)
Inductive TypeNode : Type :=
| NamedType (name : string)
| ListType (type : TypeNode)
| NonNullType (type : TypeNode).

(** [graphql.InputValueDefinitionNode]: [arg.name.value] and [arg.type]. *)
Record InputValueDefinitionNode : Type := mkArg {
  arg_name : string;
  arg_type : TypeNode;
}.

(** [graphql.FieldDefinitionNode]: [field.name.value], [field.arguments]
    (optional in the node type, hence the [&&] guards of the source) and
    [field.type]. *)
Record FieldDefinitionNode : Type := mkField {
  field_name : string;
  field_arguments : option (list InputValueDefinitionNode);
  field_type : TypeNode;
}.

(** A definition of the document. Only [ObjectTypeDefinition] nodes have a
    visitor; [node.fields] is optional in the node type. Every other kind
    of definition (scalar, enum, interface, input, union, directive,
    schema, type extension) is carried by its kind and name alone. *)
Inductive DefinitionNode : Type :=
| ObjectTypeDefinition (name : string) (fields : option (list FieldDefinitionNode))
| OtherDefinition (kind : string) (name : string).

(** [graphql.DocumentNode]: the definitions in document order. *)
Definition DocumentNode : Type := list DefinitionNode.

(** The [kind] of an operation: ["query" | "mutation"]. *)
Inductive OperationKind : Type := query | mutation.

Global Instance OperationKind_eq_dec : EqDecision OperationKind.
Proof. solve_decision. Defined.

Definition kind_text (k : OperationKind) : string :=
  match k with query => "query" | mutation => "mutation" end.

(** One element of [operations]: [{kind, name, astValue}]. *)
Record Operation : Type := mkOperation {
  op_kind : OperationKind;
  op_name : string;
  op_astValue : FieldDefinitionNode;
}.

(** The catalog: [Map<string, FieldDefinitionNode[]>]. *)
Abbreviation TypeCatalog := (gmap string (list FieldDefinitionNode)).

(* ===================================================================== *)
(** ** getTypeName                                                        *)
(* ===================================================================== *)

(** [getTypeName(node, forQueryDefinition)]. With the flag set, the two
    first tests keep the wrapper ([!] after, brackets around); otherwise the
    wrappers are looked through. The closing [return ""] of the source is
    for a [kind] outside the three of [TypeNode]. *)
Fixpoint getTypeName (node : TypeNode) (forQueryDefinition : bool) : string :=
  match forQueryDefinition, node with
  | true, NonNullType type => getTypeName type forQueryDefinition +:+ "!"
  | true, ListType type => "[" +:+ getTypeName type forQueryDefinition +:+ "]"
  | _, NonNullType type => getTypeName type forQueryDefinition
  | _, ListType type => getTypeName type forQueryDefinition
  | _, NamedType name => name
  end.

(* ===================================================================== *)
(** ** findOperationsAndTypes                                             *)
(* ===================================================================== *)

(** [array.push(x)]. *)
Definition push {A} (arr : list A) (x : A) : list A := arr ++ [x].

(** The accumulators of [findOperationsAndTypes]: [operations], [types]. *)
Definition Found : Type := list Operation * TypeCatalog.

(** The [ObjectTypeDefinition] visitor. [node.fields.forEach] on a root
    definition throws when [fields] is undefined ([None]); for the other
    definitions the source guards with [node.fields || []]. *)
Definition visitObjectTypeDefinition
    (name : string) (fields : option (list FieldDefinitionNode))
    (acc : Found) : option Found :=
  let '(operations, types) := acc in
  let isQueryOrMutation :=
    bool_decide (name = "Mutation") || bool_decide (name = "Query") in
  if isQueryOrMutation then
    let kind := if bool_decide (name = "Mutation") then mutation else query in
    match fields with
    | None => None
    | Some fs =>
        Some (fold_left
                (fun operations field =>
                   push operations
                     {| op_kind := kind;
                        op_name := field_name field;
                        op_astValue := field |})
                fs operations,
              types)
    end
  else
    Some (operations, <[name := default [] fields]> types).

(** One step of [graphqlLanguage.visit] over the definitions. *)
Definition visitDefinition (acc : Found) (node : DefinitionNode) : option Found :=
  match node with
  | ObjectTypeDefinition name fields => visitObjectTypeDefinition name fields acc
  | OtherDefinition _ _ => Some acc
  end.

(** [graphqlLanguage.visit(schema, {ObjectTypeDefinition: ...})]: the
    definitions in document order, stopping at the first exception. *)
Fixpoint visit (schema : DocumentNode) (acc : Found) : option Found :=
  match schema with
  | [] => Some acc
  | node :: rest =>
      match visitDefinition acc node with
      | Some acc' => visit rest acc'
      | None => None
      end
  end.

Definition findOperationsAndTypes (schema : DocumentNode) : option Found :=
  visit schema ([], ∅).

(* ===================================================================== *)
(** ** Strings of the generated text                                      *)
(* ===================================================================== *)

(** [c.toUpperCase()] on one character. GraphQL names are made of ASCII
    letters, digits and [_]; the letters [a-z] move to [A-Z], every other
    character of that alphabet stays. *)
Definition toUpperCase_ascii (c : ascii) : ascii :=
  let n := nat_of_ascii c in
  if ((97 <=? n) && (n <=? 122))%nat then ascii_of_nat (n - 32) else c.

Fixpoint toUpperCase (s : string) : string :=
  match s with
  | EmptyString => EmptyString
  | String c rest => String (toUpperCase_ascii c) (toUpperCase rest)
  end.

(** [s.charAt(i)]: the one-character string at [i], or the empty string. *)
Definition charAt (i : nat) (s : string) : string := String.substring i 1 s.

(** [s.slice(start)]: from [start] to the end. *)
Definition slice (start : nat) (s : string) : string :=
  String.substring start (String.length s - start)%nat s.

(** [upperFirst = (input) => input.charAt(0).toUpperCase() + input.slice(1)] *)
Definition upperFirst (input : string) : string :=
  toUpperCase (charAt 0 input) +:+ slice 1 input.

Definition double_quote : string := String "034"%char EmptyString.
Definition newline : string := String "010"%char EmptyString.

(** [array.join(sep)] on strings. *)
Definition join (sep : string) (parts : list string) : string :=
  String.concat sep parts.

(** The first line pushed: the import of the tag helper. *)
Definition import_line : string :=
  "import gql from " +:+ double_quote +:+ "graphql-tag" +:+ double_quote +:+ ";".

(** [`$${arg.name.value}: ${getTypeName(arg.type, true)}`] *)
Definition declaration_entry (arg : InputValueDefinitionNode) : string :=
  "$" +:+ arg_name arg +:+ ": " +:+ getTypeName (arg_type arg) true.

(** [`${arg.name.value}: $${arg.name.value}`] *)
Definition binding_entry (arg : InputValueDefinitionNode) : string :=
  arg_name arg +:+ ": $" +:+ arg_name arg.

(* ===================================================================== *)
(** ** generateCodeForOperation                                           *)
(* ===================================================================== *)

(** [list.forEach(item => ...)] where the callback updates a state and may
    throw. *)
Fixpoint forEach {A S : Type} (f : S -> A -> option S) (l : list A) (s : S)
  : option S :=
  match l with
  | [] => Some s
  | x :: rest =>
      match f s x with
      | Some s' => forEach f rest s'
      | None => None
      end
  end.

(** [operation.astValue.arguments && operation.astValue.arguments.length > 0] *)
Definition hasArguments (operation : Operation) : bool :=
  match field_arguments (op_astValue operation) with
  | Some args => bool_decide (0 < length args)%nat
  | None => false
  end.

(** The array behind [operation.astValue.arguments] once the guard passed. *)
Definition argumentsOf (operation : Operation) : list InputValueDefinitionNode :=
  default [] (field_arguments (op_astValue operation)).

Section Synthesizer.

(** [types] is the catalog and [maxFieldsSelectionDepth] the third
    parameter of [generateCodeForOperation] (a count of levels, default 2);
    [selectFields] closes over both. *)
Variable types : TypeCatalog.
Variable maxFieldsSelectionDepth : nat.

(** [selectFields(types, field, code, depth)]. The recursion of the source
    is bounded by [depth] alone (a type may refer to itself), so the
    embedding recurses on a fuel; [selectFields] below supplies enough of
    it, and [None] is the exhausted fuel. The result is the array [code]
    after the pushes. *)
Fixpoint selectFields_fuel (fuel : nat) (field : FieldDefinitionNode)
    (code : list string) (depth : nat) : option (list string) :=
  match fuel with
  | O => None
  | S fuel' =>
      let fieldType := getTypeName (field_type field) false in
      let fieldName := field_name field in
      match types !! fieldType with
      | None => Some (push code fieldName)
      | Some items =>
          let code := push code fieldName in
          if (depth <? maxFieldsSelectionDepth)%nat then
            let code := push code "{" in
            match forEach
                    (fun code item => selectFields_fuel fuel' item code (depth + 1)%nat)
                    items code with
            | Some code => Some (push code "}")
            | None => None
            end
          else Some code
      end
  end.

Definition selectFields (field : FieldDefinitionNode) (code : list string)
    (depth : nat) : option (list string) :=
  selectFields_fuel (S (maxFieldsSelectionDepth - depth)%nat) field code depth.

(** The array [code] of [generateCodeForOperation] just before
    [code.join]. *)
Definition generateCodeTokens (operation : Operation) : option (list string) :=
  let code := [] in
  let code := push code import_line in
  let code := push code "" in
  let code := push code "export default gql`" in
  let code :=
    push code (kind_text (op_kind operation) +:+ " " +:+ upperFirst (op_name operation)) in
  (* Arguments *)
  let code :=
    if hasArguments operation then
      let code := push code "(" in
      let code := push code (join "," (map declaration_entry (argumentsOf operation))) in
      push code ")"
    else code in
  (* Operation execution selection *)
  let code := push code "{" in
  (* Operation name *)
  let code := push code (op_name operation) in
  (* Arguments usage *)
  let code :=
    if hasArguments operation then
      let code := push code "(" in
      let code := push code (join "," (map binding_entry (argumentsOf operation))) in
      push code ")"
    else code in
  (* Fields selection *)
  let returnType := getTypeName (field_type (op_astValue operation)) false in
  code ←
    match types !! returnType with
    | Some fields =>
        let code := push code "{" in
        code ← forEach (fun code field => selectFields field code 0) fields code;
        Some (push code "}")
    | None => Some code
    end;
  (* End operation execution *)
  let code := push code "}" in
  let code := push code "`" in
  let code := push code "" in
  Some code.

(** The text handed to the formatter: [code.join("\n")]. *)
Definition generateCodeText (operation : Operation) : option string :=
  join newline <$> generateCodeTokens operation.

End Synthesizer.

(** [generateCodeForOperation(operation, types)] is called with two
    arguments: the depth takes its default. *)
Definition defaultMaxFieldsSelectionDepth : nat := 2.

(* ===================================================================== *)
(** ** The world the handlers run in                                      *)
(* ===================================================================== *)

(** What [fetch(url, {method, headers, body})] sends; [req_body] lists the
    members (name, string value) of the object whose [JSON.stringify] is
    the body. *)
Record Request : Type := mkRequest {
  req_url : string;
  req_method : string;
  req_headers : list (string * string);
  req_body : list (string * string);
}.

(** The files of the working directory by name, the chunks written to
    standard output, and the requests sent, oldest first. *)
Record World : Type := mkWorld {
  files : gmap string string;
  stdout : list string;
  requests : list Request;
}.

(** A computation over the world that returns a value or throws ([None]);
    what it did before throwing stays done. *)
Definition Run (A : Type) : Type := World -> World * option A.

Definition ret {A : Type} (x : A) : Run A := fun w => (w, Some x).

Definition bind {A B : Type} (m : Run A) (f : A -> Run B) : Run B := fun w =>
  match m w with
  | (w', Some x) => f x w'
  | (w', None) => (w', None)
  end.

Notation "x <~ m ;; k" := (bind m (fun x => k))
  (at level 100, m at next level, right associativity).
Notation "m ;;; k" := (bind m (fun _ => k))
  (at level 100, right associativity).

(** A pure step that may throw. *)
Definition lift {A : Type} (o : option A) : Run A := fun w => (w, o).

(** [console.log(line)]. *)
Definition console_log (line : string) : Run unit := fun w =>
  (mkWorld (files w) (push (stdout w) (line +:+ newline)) (requests w), Some tt).

(** [process.stdout.write(text)]. *)
Definition stdout_write (text : string) : Run unit := fun w =>
  (mkWorld (files w) (push (stdout w) text) (requests w), Some tt).

(** [existsSync(fileName)]. *)
Definition existsSync (fileName : string) : Run bool := fun w =>
  (w, Some (bool_decide (is_Some (files w !! fileName)))).

(** [writeFileSync(fileName, code)]: creates or replaces the whole file. *)
Definition writeFileSync (fileName code : string) : Run unit := fun w =>
  (mkWorld (<[fileName := code]> (files w)) (stdout w) (requests w), Some tt).

(** [list.forEach(callback)] for a callback that acts on the world. *)
Fixpoint forEachRun {A : Type} (f : A -> Run unit) (l : list A) : Run unit :=
  match l with
  | [] => ret tt
  | x :: rest => f x ;;; forEachRun f rest
  end.

(** [list.every(predicate)] for a predicate that reads the world; it stops
    at the first element that fails. *)
Fixpoint everyRun {A : Type} (p : A -> Run bool) (l : list A) : Run bool :=
  match l with
  | [] => ret true
  | x :: rest => ok <~ p x ;; if (ok : bool) then everyRun p rest else ret false
  end.

(** One element of [nodes]: [{name, fileName, code}]. *)
Record Node : Type := mkNode {
  node_name : string;
  node_fileName : string;
  node_code : string;
}.

(** [argv] of the [generate] command. *)
Record GenerateArgv : Type := mkGenerateArgv {
  argv_url : string;
  argv_type : OperationKind;
  argv_operations : list string;
  argv_write : bool;
}.

(** [argv] of the default (listing) command. *)
Record ListArgv : Type := mkListArgv {
  largv_url : string;
  largv_filter : OperationKind;
}.

Section Program.

(** The collaborators outside the repository: the text that
    [getIntrospectionQuery()] returns; what comes back for a request
    once [response.json()], [buildClientSchema], [printSchema] and
    [parseSchema] have run ([None] when any of them throws); and
    [prettier.format(text, {parser: "typescript"})], which throws on text
    it cannot parse. *)
Variable getIntrospectionQuery : string.
Variable receiveSchema : Request -> option DocumentNode.
Variable prettier_format : string -> option string.

(** [fetchSchemaWithIntrospection(url)]. *)
Definition fetchSchemaWithIntrospection (url : string) : Run DocumentNode :=
  fun w =>
    let introspectionQuery := getIntrospectionQuery in
    let request :=
      {| req_url := "http://localhost:25202/";
         req_method := "POST";
         req_headers := [("Content-Type", "application/json")];
         req_body := [("query", introspectionQuery)] |} in
    (mkWorld (files w) (stdout w) (push (requests w) request),
     receiveSchema request).

(** [generateCodeForOperation(operation, types, maxFieldsSelectionDepth)] *)
Definition generateCodeForOperation (operation : Operation)
    (types : TypeCatalog) (maxFieldsSelectionDepth : nat) : option string :=
  generateCodeText types maxFieldsSelectionDepth operation ≫= prettier_format.

(** The [.filter(...).map(...)] that builds [nodes]. *)
Definition buildNodes (argv : GenerateArgv) (operations : list Operation)
    (types : TypeCatalog) : option (list Node) :=
  mapM
    (fun operation =>
       let name :=
         upperFirst (op_name operation) +:+ upperFirst (kind_text (op_kind operation)) in
       code ← generateCodeForOperation operation types defaultMaxFieldsSelectionDepth;
       Some {| node_name := name; node_fileName := name +:+ ".ts"; node_code := code |})
    (List.filter
       (fun operation =>
          bool_decide (op_kind operation = argv_type argv)
          && bool_decide (op_name operation ∈ argv_operations argv))
       operations).

(** The tail of the [generate] handler: [if (argv.write) {...} else {...}] *)
Definition emitNodes (write : bool) (nodes : list Node) : Run unit :=
  if write then
    isSafeToWrite <~
      everyRun
        (fun node => found <~ existsSync (node_fileName node) ;; ret (negb found))
        nodes ;;
    if (isSafeToWrite : bool) then
      forEachRun
        (fun node =>
           writeFileSync (node_fileName node) (node_code node) ;;;
           console_log ("Written to " +:+ node_fileName node))
        nodes
    else ret tt
  else
    forEachRun
      (fun node =>
         console_log ("// " +:+ node_fileName node) ;;;
         stdout_write (node_code node))
      nodes.

(** The handler of [generate <url> <type> [operations...]]. *)
Definition generateHandler (argv : GenerateArgv) : Run unit :=
  if bool_decide (length (argv_operations argv) = 0%nat) then ret tt
  else
    schema <~ fetchSchemaWithIntrospection (argv_url argv) ;;
    found <~ lift (findOperationsAndTypes schema) ;;
    nodes <~ lift (buildNodes argv found.1 found.2) ;;
    emitNodes (argv_write argv) nodes.

(** The handler of [$0 <url> <filter>]. *)
Definition listHandler (argv : ListArgv) : Run unit :=
  schema <~ fetchSchemaWithIntrospection (largv_url argv) ;;
  found <~ lift (findOperationsAndTypes schema) ;;
  let operations := found.1 in
  let queries :=
    List.filter (fun operation => bool_decide (op_kind operation = query)) operations in
  let mutations :=
    List.filter (fun operation => bool_decide (op_kind operation = mutation)) operations in
  (if bool_decide (largv_filter argv = query)
   then forEachRun (fun q => console_log (op_name q)) queries
   else ret tt) ;;;
  if bool_decide (largv_filter argv = mutation)
  then forEachRun (fun m => console_log (op_name m)) mutations
  else ret tt.

End Program.

(* ===================================================================== *)
(** ** Reference definitions the properties are stated against            *)
(* ===================================================================== *)

(** The bare name of a type reference: the name under every wrapper. *)
Fixpoint bareName (node : TypeNode) : string :=
  match node with
  | NamedType name => name
  | ListType type => bareName type
  | NonNullType type => bareName type
  end.

(** The type reference printed in GraphQL syntax, every wrapper kept. *)
Fixpoint printedType (node : TypeNode) : string :=
  match node with
  | NamedType name => name
  | ListType type => "[" +:+ printedType type +:+ "]"
  | NonNullType type => printedType type +:+ "!"
  end.

(** The declaration rendering as the specification words it: List and
    NonNull syntax kept, except that a NonNull directly around the
    innermost (named) layer is dropped. *)
Fixpoint printedTypeInnermostNullable (node : TypeNode) : string :=
  match node with
  | NamedType name => name
  | ListType type => "[" +:+ printedTypeInnermostNullable type +:+ "]"
  | NonNullType (NamedType name) => name
  | NonNullType type => printedTypeInnermostNullable type +:+ "!"
  end.

(** The descriptor a root field becomes. *)
Definition operationOf (kind : OperationKind) (field : FieldDefinitionNode) : Operation :=
  {| op_kind := kind; op_name := field_name field; op_astValue := field |}.

(** The descriptors one definition contributes: the fields of a [Query] or
    [Mutation] definition, nothing for any other definition. *)
Definition contributedOperations (node : DefinitionNode) : list Operation :=
  match node with
  | ObjectTypeDefinition name fields =>
      if decide (name = "Mutation") then operationOf mutation <$> default [] fields
      else if decide (name = "Query") then operationOf query <$> default [] fields
      else []
  | OtherDefinition _ _ => []
  end.

(** Every [Query] or [Mutation] definition of the document carries a field
    array (the parser gives every object type one, empty if need be). *)
Definition rootFieldsPresent (schema : DocumentNode) : bool :=
  forallb
    (fun node =>
       match node with
       | ObjectTypeDefinition name None =>
           negb (bool_decide (name = "Mutation") || bool_decide (name = "Query"))
       | _ => true
       end)
    schema.

(** Brace levels of a token sequence: the level after the sequence when it
    starts at level [cur], and the deepest level met on the way. *)
Fixpoint levelAfter (cur : nat) (tokens : list string) : nat :=
  match tokens with
  | [] => cur
  | t :: rest =>
      if decide (t = "{") then levelAfter (S cur) rest
      else if decide (t = "}") then levelAfter (Nat.pred cur) rest
      else levelAfter cur rest
  end.

Fixpoint deepestLevel (cur : nat) (tokens : list string) : nat :=
  match tokens with
  | [] => cur
  | t :: rest =>
      if decide (t = "{") then deepestLevel (S cur) rest
      else if decide (t = "}") then Nat.max cur (deepestLevel (Nat.pred cur) rest)
      else deepestLevel cur rest
  end.

(** No field of the catalog is named by a brace (GraphQL names are letters,
    digits and underscores). *)
Definition isBrace (token : string) : bool :=
  bool_decide (token = "{") || bool_decide (token = "}").

Definition braceFreeNames (types : TypeCatalog) : Prop :=
  map_Forall
    (fun _ items => Forall (fun field => isBrace (field_name field) = false) items)
    types.

(** The tokens [selectFields] pushes for [field] when [remaining] levels are
    left below it ([maxFieldsSelectionDepth - depth]). *)
Fixpoint selection (types : TypeCatalog) (remaining : nat)
    (field : FieldDefinitionNode) : list string :=
  match types !! getTypeName (field_type field) false with
  | None => [field_name field]
  | Some items =>
      field_name field ::
      match remaining with
      | O => []
      | S remaining' => "{" :: (items ≫= selection types remaining') ++ ["}"]
      end
  end.

(** What the write loop leaves in the working directory. *)
Definition writtenFiles (nodes : list Node) (before : gmap string string)
  : gmap string string :=
  fold_left (fun fs node => <[node_fileName node := node_code node]> fs) nodes before.

(* ===================================================================== *)
(** ** Sample schemas                                                     *)
(* ===================================================================== *)

(** [type Query { now: String }] *)
Definition nowField : FieldDefinitionNode :=
  {| field_name := "now"; field_arguments := Some []; field_type := NamedType "String" |}.

Definition nowSchema : DocumentNode :=
  [OtherDefinition "ScalarTypeDefinition" "Date";
   ObjectTypeDefinition "Query" (Some [nowField])].

Definition nowOperation : Operation := operationOf query nowField.

(** Two definitions named [Query], each declaring [now]. *)
Definition twiceQuerySchema : DocumentNode :=
  [ObjectTypeDefinition "Query" (Some [nowField]);
   ObjectTypeDefinition "Foo" None;
   ObjectTypeDefinition "Query"
     (Some [{| field_name := "now"; field_arguments := None;
               field_type := NonNullType (NamedType "Date") |}])].

(** [type Foo { id: ID!, bar: Bar, self: [Foo] }] and
    [type Bar { baz: String }]; [Foo] refers to itself. *)
Definition selfField : FieldDefinitionNode :=
  {| field_name := "self"; field_arguments := None;
     field_type := ListType (NamedType "Foo") |}.

Definition fooFields : list FieldDefinitionNode :=
  [{| field_name := "id"; field_arguments := Some [];
      field_type := NonNullType (NamedType "ID") |};
   {| field_name := "bar"; field_arguments := Some [];
      field_type := NamedType "Bar" |};
   selfField].

Definition barFields : list FieldDefinitionNode :=
  [{| field_name := "baz"; field_arguments := Some [];
      field_type := NamedType "String" |}].

Definition fooCatalog : TypeCatalog :=
  <["Foo" := fooFields]> (<["Bar" := barFields]> ∅).

(** [foo(id: ID!, tags: [String!]): Foo] under [Query]. *)
Definition fooArguments : list InputValueDefinitionNode :=
  [{| arg_name := "id"; arg_type := NonNullType (NamedType "ID") |};
   {| arg_name := "tags"; arg_type := ListType (NonNullType (NamedType "String")) |}].

Definition fooOperation : Operation :=
  operationOf query
    {| field_name := "foo"; field_arguments := Some fooArguments;
       field_type := NamedType "Foo" |}.

(** [type Empty] with no field, and [empty: Empty!] under [Query]. *)
Definition emptyCatalog : TypeCatalog := <["Empty" := []]> ∅.

Definition emptyOperation : Operation :=
  operationOf query
    {| field_name := "empty"; field_arguments := Some [];
       field_type := NonNullType (NamedType "Empty") |}.

(** Two nodes to emit, a working directory where the first target exists,
    and an empty one. *)
Definition sampleNodes : list Node :=
  [{| node_name := "NowQuery"; node_fileName := "NowQuery.ts"; node_code := "now" |};
   {| node_name := "FooQuery"; node_fileName := "FooQuery.ts"; node_code := "foo" |}].

Definition occupiedWorld : World :=
  {| files := {["NowQuery.ts" := "kept"]}; stdout := []; requests := [] |}.

Definition emptyWorld : World :=
  {| files := ∅; stdout := []; requests := [] |}.

(** The request [fetchSchemaWithIntrospection] builds. *)
Definition introspectionRequest (introspectionQuery : string) : Request :=
  {| req_url := "http://localhost:25202/";
     req_method := "POST";
     req_headers := [("Content-Type", "application/json")];
     req_body := [("query", introspectionQuery)] |}.

(** The world once the introspection request has been sent. *)
Definition afterRequest (introspectionQuery : string) (w : World) : World :=
  {| files := files w; stdout := stdout w;
     requests := requests w ++ [introspectionRequest introspectionQuery] |}.

(** The test of the [.filter(...)] that selects the operations to generate. *)
Definition requested (argv : GenerateArgv) (operation : Operation) : bool :=
  bool_decide (op_kind operation = argv_type argv)
  && bool_decide (op_name operation ∈ argv_operations argv).

(** What print mode writes to standard output for the nodes. *)
Definition printedChunks (nodes : list Node) : list string :=
  nodes ≫= fun node => ["// " +:+ node_fileName node +:+ newline; node_code node].

(** The test of [isSafeToWrite]: no target file exists. *)
Definition allAbsent (nodes : list Node) (w : World) : bool :=
  forallb (fun node => negb (bool_decide (is_Some (files w !! node_fileName node)))) nodes.




(** A strict reading of the braces of a token sequence: the level after it
    when read from level [cur], or [None] when a closing brace comes at
    level 0. A sequence is well bracketed when it goes from 0 to 0. *)
Fixpoint closeLevel (cur : nat) (tokens : list string) : option nat :=
  match tokens with
  | [] => Some cur
  | t :: rest =>
      if decide (t = "{") then closeLevel (S cur) rest
      else if decide (t = "}") then
        match cur with
        | O => None
        | S below => closeLevel below rest
        end
      else closeLevel cur rest
  end.

(** The catalog after one definition. *)
Definition catalogStep (types : TypeCatalog) (node : DefinitionNode) : TypeCatalog :=
  match node with
  | ObjectTypeDefinition name fields =>
      if bool_decide (name = "Mutation") || bool_decide (name = "Query") then types
      else <[name := default [] fields]> types
  | OtherDefinition _ _ => types
  end.

(** The name of the root definition that holds the operations of a kind. *)
Definition rootName (kind : OperationKind) : string :=
  match kind with query => "Query" | mutation => "Mutation" end.

(** The file name [buildNodes] derives for an operation. *)
Definition fileNameOf (operation : Operation) : string :=
  (upperFirst (op_name operation) +:+ upperFirst (kind_text (op_kind operation)))
  +:+ ".ts".

(** The tokens pushed before the block of the root field. *)
Definition tokensBeforeSelection (operation : Operation) : list string :=
  [import_line; ""; "export default gql`";
   kind_text (op_kind operation) +:+ " " +:+ upperFirst (op_name operation)]
  ++ (if hasArguments operation
      then ["("; join "," (map declaration_entry (argumentsOf operation)); ")"]
      else [])
  ++ ["{"; op_name operation]
  ++ (if hasArguments operation
      then ["("; join "," (map binding_entry (argumentsOf operation)); ")"]
      else []).

(* ===================================================================== *)
(** ** Properties of getTypeName                                          *)
(* ===================================================================== *)

Lemma getTypeName_bare node : getTypeName node false = bareName node.
Proof. induction node as [name | type IH | type IH]; simpl; auto. Qed.

Lemma getTypeName_printed node : getTypeName node true = printedType node.
Proof.
  induction node as [name | type IH | type IH]; simpl.
  - reflexivity.
  - now rewrite IH.
  - now rewrite IH.
Qed.

(** C6 (counterexample): for the declaration of [$id: ID!] the helper
    returns ["ID!"]: the NonNull around the innermost layer is kept, where
    the claim has it dropped. *)
Lemma getTypeName_keeps_innermost_NonNull :
  getTypeName (NonNullType (NamedType "ID")) true = "ID!"
  ∧ getTypeName (NonNullType (NamedType "ID")) true
    ≠ printedTypeInnermostNullable (NonNullType (NamedType "ID")).
Proof. split; [reflexivity | discriminate]. Qed.

(** C6 (amended): on every type reference built from Named, List and NonNull,
    [getTypeName] without the flag returns the bare name, every List and
    NonNull wrapper dropped; with the flag (a variable declaration) it
    returns the reference printed with every wrapper kept, brackets for List
    and a trailing [!] for NonNull, none dropped. *)
Theorem getTypeName_resolution (node : TypeNode) :
  getTypeName node false = bareName node
  ∧ getTypeName node true = printedType node.
Proof. split; [apply getTypeName_bare | apply getTypeName_printed]. Qed.

(* ===================================================================== *)
(** ** Properties of findOperationsAndTypes                               *)
(* ===================================================================== *)

Lemma forEach_push_operations kind fs : ∀ operations,
  fold_left
    (fun operations field =>
       push operations
         {| op_kind := kind; op_name := field_name field; op_astValue := field |})
    fs operations
  = operations ++ (operationOf kind <$> fs).
Proof.
  induction fs as [| f fs IH]; intros operations; simpl.
  - now rewrite app_nil_r.
  - rewrite IH. unfold push. now rewrite <- app_assoc.
Qed.

Lemma visit_app s1 : ∀ s2 acc,
  visit (s1 ++ s2) acc = visit s1 acc ≫= visit s2.
Proof.
  induction s1 as [| node s1 IH]; intros s2 acc; simpl.
  - reflexivity.
  - destruct (visitDefinition acc node) as [acc' |]; simpl; auto.
Qed.

Lemma visit_snoc schema node acc :
  visit (schema ++ [node]) acc = visit schema acc ≫= fun acc' => visitDefinition acc' node.
Proof.
  rewrite visit_app. destruct (visit schema acc) as [acc' |]; simpl; [| reflexivity].
  now destruct (visitDefinition acc' node).
Qed.

Lemma visitObjectTypeDefinition_root name fs operations types :
  name = "Mutation" ∨ name = "Query" →
  visitObjectTypeDefinition name (Some fs) (operations, types)
  = Some (operations
            ++ (operationOf (if decide (name = "Mutation") then mutation else query) <$> fs),
          types).
Proof.
  intros Hroot. unfold visitObjectTypeDefinition.
  assert (bool_decide (name = "Mutation") || bool_decide (name = "Query") = true) as ->.
  { destruct Hroot as [-> | ->]; reflexivity. }
  rewrite forEach_push_operations.
  destruct (decide (name = "Mutation")) as [-> | Hne].
  - reflexivity.
  - now rewrite bool_decide_eq_false_2.
Qed.

Lemma visitObjectTypeDefinition_other name fields operations types :
  name ≠ "Mutation" → name ≠ "Query" →
  visitObjectTypeDefinition name fields (operations, types)
  = Some (operations, <[name := default [] fields]> types).
Proof.
  intros H1 H2. unfold visitObjectTypeDefinition.
  now rewrite !bool_decide_eq_false_2.
Qed.

(** C4: in document order, after a prefix [schema] that gave [operations] and
    [types], an object-type definition named exactly "Query" (resp.
    "Mutation") appends one descriptor of kind query (resp. mutation) per
    field and leaves the catalog as it was; an object-type definition of any
    other name leaves the operations as they were and sets the catalog entry
    of its name to its field list, the empty list when it has none. *)
Theorem findOperationsAndTypes_classifies
    (schema : DocumentNode) (operations : list Operation) (types : TypeCatalog)
    (name : string) (fields : option (list FieldDefinitionNode))
    (Hprefix : findOperationsAndTypes schema = Some (operations, types)) :
  (name = "Query" → ∀ fs, fields = Some fs →
     findOperationsAndTypes (schema ++ [ObjectTypeDefinition name fields])
     = Some (operations
               ++ map (fun field => mkOperation query (field_name field) field) fs,
             types))
  ∧ (name = "Mutation" → ∀ fs, fields = Some fs →
     findOperationsAndTypes (schema ++ [ObjectTypeDefinition name fields])
     = Some (operations
               ++ map (fun field => mkOperation mutation (field_name field) field) fs,
             types))
  ∧ (name ≠ "Query" → name ≠ "Mutation" →
     findOperationsAndTypes (schema ++ [ObjectTypeDefinition name fields])
     = Some (operations,
             match fields with
             | Some fs => <[name := fs]> types
             | None => <[name := []]> types
             end)).
Proof.
  unfold findOperationsAndTypes in *.
  repeat split.
  - intros -> fs ->. rewrite visit_snoc, Hprefix.
    cbn -[visitObjectTypeDefinition].
    rewrite visitObjectTypeDefinition_root by auto. reflexivity.
  - intros -> fs ->. rewrite visit_snoc, Hprefix.
    cbn -[visitObjectTypeDefinition].
    rewrite visitObjectTypeDefinition_root by auto. reflexivity.
  - intros HQ HM. rewrite visit_snoc, Hprefix.
    cbn -[visitObjectTypeDefinition].
    rewrite visitObjectTypeDefinition_other by auto.
    now destruct fields.
Qed.

Lemma findOperationsAndTypes_classifies_witness :
  findOperationsAndTypes [ObjectTypeDefinition "Foo" None] = Some ([], {["Foo" := []]})
  ∧ findOperationsAndTypes
      ([ObjectTypeDefinition "Foo" None] ++ [ObjectTypeDefinition "Query" (Some [nowField])])
    = Some ([] ++ map (fun field => mkOperation query (field_name field) field) [nowField],
            {["Foo" := []]}).
Proof.
  assert (findOperationsAndTypes [ObjectTypeDefinition "Foo" None]
          = Some ([], {["Foo" := []]})) as Hprefix by reflexivity.
  split; [exact Hprefix |].
  exact (proj1 (findOperationsAndTypes_classifies
                  [ObjectTypeDefinition "Foo" None] [] {["Foo" := []]}
                  "Query" (Some [nowField]) Hprefix)
               eq_refl [nowField] eq_refl).
Defined.

Lemma visitDefinition_operations node operations types :
  rootFieldsPresent [node] = true →
  ∃ types',
    visitDefinition (operations, types) node
    = Some (operations ++ contributedOperations node, types').
Proof.
  intros Hroot. destruct node as [name fields | kind name].
  - unfold visitDefinition, contributedOperations.
    destruct (decide (name = "Mutation")) as [-> | HM];
      [| destruct (decide (name = "Query")) as [-> | HQ]].
    + destruct fields as [fs |]; [| discriminate Hroot].
      exists types. now rewrite visitObjectTypeDefinition_root by auto.
    + destruct fields as [fs |]; [| discriminate Hroot].
      exists types. now rewrite visitObjectTypeDefinition_root by auto.
    + exists (<[name := default [] fields]> types).
      rewrite visitObjectTypeDefinition_other by auto. now rewrite app_nil_r.
  - exists types. simpl. now rewrite app_nil_r.
Qed.

Lemma visit_operations schema : ∀ operations types,
  rootFieldsPresent schema = true →
  ∃ types',
    visit schema (operations, types)
    = Some (operations ++ (schema ≫= contributedOperations), types').
Proof.
  induction schema as [| node schema IH]; intros operations types Hroot.
  - exists types. simpl. now rewrite app_nil_r.
  - simpl in Hroot. apply andb_true_iff in Hroot as [Hnode Hrest].
    destruct (visitDefinition_operations node operations types) as [types1 Hstep].
    { simpl. now rewrite Hnode. }
    destruct (IH (operations ++ contributedOperations node) types1 Hrest)
      as [types' Hvisit].
    exists types'.
    change (visit (node :: schema) (operations, types))
      with (match visitDefinition (operations, types) node with
            | Some acc' => visit schema acc'
            | None => None
            end).
    rewrite Hstep, Hvisit.
    change ((node :: schema) ≫= contributedOperations)
      with (contributedOperations node ++ (schema ≫= contributedOperations)).
    now rewrite app_assoc.
Qed.

(** C10: the operations list of a document is the concatenation, in document
    order, of what each definition contributes: every field of every
    definition named Query or Mutation, also when several definitions bear
    the same root name. Nothing is overwritten, so one name may occur in
    several descriptors. *)
Theorem operations_accumulate (schema : DocumentNode)
    (Hroot : rootFieldsPresent schema = true) :
  ∃ types,
    findOperationsAndTypes schema
    = Some (schema ≫= contributedOperations, types).
Proof.
  destruct (visit_operations schema [] ∅ Hroot) as [types Hvisit].
  exists types. exact Hvisit.
Qed.

Lemma operations_accumulate_witness :
  rootFieldsPresent twiceQuerySchema = true
  ∧ ∃ types,
      findOperationsAndTypes twiceQuerySchema
      = Some ([ {| op_kind := query; op_name := "now"; op_astValue := nowField |};
                {| op_kind := query; op_name := "now";
                   op_astValue :=
                     {| field_name := "now"; field_arguments := None;
                        field_type := NonNullType (NamedType "Date") |} |} ],
              types).
Proof.
  split; [reflexivity |].
  exact (operations_accumulate twiceQuerySchema eq_refl).
Defined.

(* ===================================================================== *)
(** ** Properties of selectFields                                         *)
(* ===================================================================== *)

Lemma selection_unfold types remaining field :
  selection types remaining field
  = match types !! getTypeName (field_type field) false with
    | None => [field_name field]
    | Some items =>
        field_name field ::
        match remaining with
        | O => []
        | S remaining' => "{" :: (items ≫= selection types remaining') ++ ["}"]
        end
    end.
Proof. destruct remaining; reflexivity. Qed.

Lemma forEach_pushes {A : Type} (f : list string → A → option (list string))
    (g : A → list string) (items : list A) :
  (∀ code item, f code item = Some (code ++ g item)) →
  ∀ code, forEach f items code = Some (code ++ (items ≫= g)).
Proof.
  intros Hf. induction items as [| item items IH]; intros code; simpl.
  - now rewrite app_nil_r.
  - rewrite Hf, IH. now rewrite <- app_assoc.
Qed.

Section SelectFields.

Variable types : TypeCatalog.
Variable maxFieldsSelectionDepth : nat.

(** With fuel above the levels left, [selectFields_fuel] returns, and what
    it pushes is [selection]. *)
Lemma selectFields_fuel_selection fuel : ∀ field code depth,
  maxFieldsSelectionDepth - depth < fuel →
  selectFields_fuel types maxFieldsSelectionDepth fuel field code depth
  = Some (code ++ selection types (maxFieldsSelectionDepth - depth) field).
Proof.
  induction fuel as [| fuel IH]; intros field code depth Hfuel; [lia |].
  rewrite selection_unfold. simpl.
  destruct (types !! getTypeName (field_type field) false) as [items |];
    [| reflexivity].
  unfold push. destruct (Nat.ltb_spec depth maxFieldsSelectionDepth) as [Hlt | Hge].
  - replace (maxFieldsSelectionDepth - depth)
      with (S (maxFieldsSelectionDepth - (depth + 1))) by lia.
    rewrite (forEach_pushes _ (selection types (maxFieldsSelectionDepth - (depth + 1)))).
    + f_equal. rewrite <- !app_assoc. reflexivity.
    + intros code' item. apply IH. lia.
  - replace (maxFieldsSelectionDepth - depth) with 0 by lia. reflexivity.
Qed.

Lemma selectFields_selection field code depth :
  selectFields types maxFieldsSelectionDepth field code depth
  = Some (code ++ selection types (maxFieldsSelectionDepth - depth) field).
Proof. apply selectFields_fuel_selection. lia. Qed.

Lemma forEach_selectFields items code depth :
  forEach (fun code item => selectFields types maxFieldsSelectionDepth item code depth)
    items code
  = Some (code ++ (items ≫= selection types (maxFieldsSelectionDepth - depth))).
Proof. apply forEach_pushes. intros. apply selectFields_selection. Qed.

End SelectFields.

(** Brace levels. *)
Lemma deepestLevel_ge_start tokens : ∀ cur, cur ≤ deepestLevel cur tokens.
Proof.
  induction tokens as [| t tokens IH]; intros cur; simpl; [lia |].
  repeat case_decide.
  - specialize (IH (S cur)). lia.
  - lia.
  - apply IH.
Qed.

Lemma levelAfter_app a : ∀ b cur,
  levelAfter cur (a ++ b) = levelAfter (levelAfter cur a) b.
Proof.
  induction a as [| t a IH]; intros b cur; simpl; [reflexivity |].
  repeat case_decide; apply IH.
Qed.

Lemma deepestLevel_app a : ∀ b cur,
  deepestLevel cur (a ++ b)
  = Nat.max (deepestLevel cur a) (deepestLevel (levelAfter cur a) b).
Proof.
  induction a as [| t a IH]; intros b cur; simpl.
  - pose proof (deepestLevel_ge_start b cur). lia.
  - repeat case_decide; rewrite IH; lia.
Qed.

Lemma levels_plain token cur rest :
  isBrace token = false →
  levelAfter cur (token :: rest) = levelAfter cur rest
  ∧ deepestLevel cur (token :: rest) = deepestLevel cur rest.
Proof.
  unfold isBrace. intros Hplain. apply orb_false_iff in Hplain as [H1 H2].
  apply bool_decide_eq_false in H1, H2. simpl.
  rewrite !decide_False by assumption. auto.
Qed.

Lemma levels_bind {A : Type} (g : A → list string) (bound : nat) (items : list A) :
  Forall (fun item => ∀ cur,
            levelAfter cur (g item) = cur ∧ deepestLevel cur (g item) ≤ cur + bound)
         items →
  ∀ cur,
    levelAfter cur (items ≫= g) = cur ∧ deepestLevel cur (items ≫= g) ≤ cur + bound.
Proof.
  induction 1 as [| item items Hitem _ IH]; intros cur.
  - simpl. split; [reflexivity | lia].
  - change ((item :: items) ≫= g) with (g item ++ (items ≫= g)).
    rewrite levelAfter_app, deepestLevel_app.
    destruct (Hitem cur) as [-> Hdeep]. destruct (IH cur) as [-> Hdeep'].
    split; [reflexivity | lia].
Qed.

Lemma selection_levels types (Hnames : braceFreeNames types) remaining :
  ∀ field cur,
    isBrace (field_name field) = false →
    levelAfter cur (selection types remaining field) = cur
    ∧ deepestLevel cur (selection types remaining field) ≤ cur + remaining.
Proof.
  induction remaining as [| remaining IH]; intros field cur Hplain;
    rewrite selection_unfold;
    destruct (types !! getTypeName (field_type field) false) as [items |] eqn:Hitems.
  - destruct (levels_plain _ cur [] Hplain) as [-> ->]. simpl. split; [reflexivity | lia].
  - destruct (levels_plain _ cur [] Hplain) as [-> ->]. simpl. split; [reflexivity | lia].
  - destruct (levels_plain _ cur
                ("{" :: (items ≫= selection types remaining) ++ ["}"]) Hplain) as [-> ->].
    assert (∀ cur', levelAfter cur' (items ≫= selection types remaining) = cur'
                    ∧ deepestLevel cur' (items ≫= selection types remaining)
                      ≤ cur' + remaining) as Hinner.
    { apply levels_bind. apply (map_Forall_lookup_1 _ _ _ _ Hnames) in Hitems.
      eapply Forall_impl; [exact Hitems |]. intros item Hitem cur'. now apply IH. }
    change (levelAfter cur ("{" :: (items ≫= selection types remaining) ++ ["}"]))
      with (levelAfter (S cur) ((items ≫= selection types remaining) ++ ["}"])).
    change (deepestLevel cur ("{" :: (items ≫= selection types remaining) ++ ["}"]))
      with (deepestLevel (S cur) ((items ≫= selection types remaining) ++ ["}"])).
    rewrite levelAfter_app, deepestLevel_app.
    destruct (Hinner (S cur)) as [-> Hdeep]. simpl. split; [reflexivity | lia].
  - destruct (levels_plain _ cur [] Hplain) as [-> ->]. simpl. split; [reflexivity | lia].
Qed.

(* ===================================================================== *)
(** ** Properties of generateCodeForOperation                             *)
(* ===================================================================== *)

(** The array [code] in closed form: the four opening lines, the variable
    declarations when there are arguments, the root block with the field
    name, the bindings when there are arguments, the sub-selection when the
    return type is in the catalog, and the three closing lines. *)
Lemma generateCodeTokens_eq types maxFieldsSelectionDepth operation :
  generateCodeTokens types maxFieldsSelectionDepth operation
  = Some
      ([import_line; ""; "export default gql`";
        kind_text (op_kind operation) +:+ " " +:+ upperFirst (op_name operation)]
       ++ (if hasArguments operation
           then ["("; join "," (map declaration_entry (argumentsOf operation)); ")"]
           else [])
       ++ ["{"; op_name operation]
       ++ (if hasArguments operation
           then ["("; join "," (map binding_entry (argumentsOf operation)); ")"]
           else [])
       ++ match types !! getTypeName (field_type (op_astValue operation)) false with
          | Some fields =>
              "{" :: (fields ≫= selection types maxFieldsSelectionDepth) ++ ["}"]
          | None => []
          end
       ++ ["}"; "`"; ""]).
Proof.
  unfold generateCodeTokens, push.
  destruct (types !! getTypeName (field_type (op_astValue operation)) false)
    as [fields |].
  - rewrite forEach_selectFields, Nat.sub_0_r.
    destruct (hasArguments operation); simpl; rewrite <- ?app_assoc; reflexivity.
  - destruct (hasArguments operation); reflexivity.
Qed.

Lemma string_length_append (a b : string) :
  String.length (a +:+ b) = String.length a + String.length b.
Proof. induction a as [| c a IH]; simpl; [reflexivity | now rewrite IH]. Qed.

Lemma isBrace_length token : isBrace token = true → String.length token = 1.
Proof.
  unfold isBrace. intros H. apply orb_true_iff in H as [H | H];
    apply bool_decide_eq_true in H; subst; reflexivity.
Qed.

Lemma long_token_plain token : 1 < String.length token → isBrace token = false.
Proof.
  intros Hlong. destruct (isBrace token) eqn:Hbrace; [| reflexivity].
  apply isBrace_length in Hbrace. lia.
Qed.

Lemma join_length_ge sep first rest :
  String.length first ≤ String.length (join sep (first :: rest)).
Proof.
  unfold join. simpl. destruct rest as [| second rest]; [lia |].
  rewrite string_length_append. lia.
Qed.

Lemma header_plain kind name :
  isBrace (kind_text kind +:+ " " +:+ upperFirst name) = false.
Proof.
  apply long_token_plain. rewrite string_length_append. destruct kind; simpl; lia.
Qed.

Lemma declarations_plain args :
  0 < length args → isBrace (join "," (map declaration_entry args)) = false.
Proof.
  destruct args as [| arg args]; simpl; [lia | intros _].
  apply long_token_plain.
  pose proof (join_length_ge "," (declaration_entry arg) (map declaration_entry args)).
  unfold declaration_entry in *. rewrite !string_length_append in *.
  simpl in *. lia.
Qed.

Lemma bindings_plain args :
  0 < length args → isBrace (join "," (map binding_entry args)) = false.
Proof.
  destruct args as [| arg args]; simpl; [lia | intros _].
  apply long_token_plain.
  pose proof (join_length_ge "," (binding_entry arg) (map binding_entry args)).
  unfold binding_entry in *. rewrite !string_length_append in *.
  simpl in *. lia.
Qed.

Lemma hasArguments_true operation :
  hasArguments operation = true → 0 < length (argumentsOf operation).
Proof.
  unfold hasArguments, argumentsOf.
  destruct (field_arguments (op_astValue operation)) as [args |]; [| discriminate].
  intros H. now apply bool_decide_eq_true in H.
Qed.

Lemma levels_plain_prefix prefix : ∀ cur rest,
  Forall (fun token => isBrace token = false) prefix →
  levelAfter cur (prefix ++ rest) = levelAfter cur rest
  ∧ deepestLevel cur (prefix ++ rest) = deepestLevel cur rest.
Proof.
  induction prefix as [| token prefix IH]; intros cur rest Hplain; [auto |].
  apply Forall_cons in Hplain as [Htoken Hprefix].
  change ((token :: prefix) ++ rest) with (token :: (prefix ++ rest)).
  destruct (levels_plain token cur (prefix ++ rest) Htoken) as [-> ->].
  now apply IH.
Qed.

(** The deepest brace level of the whole array: the root block, the block of
    the root field, and at most [maxFieldsSelectionDepth] blocks below. *)
Lemma generateCodeTokens_levels types maxFieldsSelectionDepth operation :
  braceFreeNames types →
  isBrace (op_name operation) = false →
  ∃ tokens,
    generateCodeTokens types maxFieldsSelectionDepth operation = Some tokens
    ∧ levelAfter 0 tokens = 0
    ∧ deepestLevel 0 tokens ≤ maxFieldsSelectionDepth + 2.
Proof.
  intros Hnames Hname. eexists. split; [apply generateCodeTokens_eq |].
  set (declarations :=
         if hasArguments operation
         then ["("; join "," (map declaration_entry (argumentsOf operation)); ")"]
         else []).
  set (bindings :=
         if hasArguments operation
         then ["("; join "," (map binding_entry (argumentsOf operation)); ")"]
         else []).
  set (sub := match types !! getTypeName (field_type (op_astValue operation)) false with
              | Some fields =>
                  "{" :: (fields ≫= selection types maxFieldsSelectionDepth) ++ ["}"]
              | None => []
              end).
  assert (Forall (fun token => isBrace token = false) declarations) as Hdecl.
  { subst declarations. destruct (hasArguments operation) eqn:Hargs; [| constructor].
    repeat constructor. apply declarations_plain. now apply hasArguments_true. }
  assert (Forall (fun token => isBrace token = false) bindings) as Hbind.
  { subst bindings. destruct (hasArguments operation) eqn:Hargs; [| constructor].
    repeat constructor. apply bindings_plain. now apply hasArguments_true. }
  assert (levelAfter 1 sub = 1 ∧ deepestLevel 1 sub ≤ maxFieldsSelectionDepth + 2)
    as [Hsub_level Hsub_deep].
  { subst sub.
    destruct (types !! getTypeName (field_type (op_astValue operation)) false)
      as [fields |] eqn:Hfields; [| simpl; split; [reflexivity | lia]].
    assert (∀ cur,
              levelAfter cur (fields ≫= selection types maxFieldsSelectionDepth) = cur
              ∧ deepestLevel cur (fields ≫= selection types maxFieldsSelectionDepth)
                ≤ cur + maxFieldsSelectionDepth) as Hinner.
    { apply levels_bind. apply (map_Forall_lookup_1 _ _ _ _ Hnames) in Hfields.
      eapply Forall_impl; [exact Hfields |].
      intros item Hitem cur. now apply selection_levels. }
    change (levelAfter 1 ("{" :: (fields ≫= selection types maxFieldsSelectionDepth) ++ ["}"]))
      with (levelAfter 2 ((fields ≫= selection types maxFieldsSelectionDepth) ++ ["}"])).
    change (deepestLevel 1 ("{" :: (fields ≫= selection types maxFieldsSelectionDepth) ++ ["}"]))
      with (deepestLevel 2 ((fields ≫= selection types maxFieldsSelectionDepth) ++ ["}"])).
    rewrite levelAfter_app, deepestLevel_app.
    destruct (Hinner 2) as [-> Hdeep]. simpl. split; [reflexivity | lia]. }
  destruct (levels_plain_prefix
              [import_line; ""; "export default gql`";
               kind_text (op_kind operation) +:+ " " +:+ upperFirst (op_name operation)]
              0 (declarations ++ ["{"; op_name operation] ++ bindings ++ sub ++ ["}"; "`"; ""]))
    as [-> ->].
  { repeat constructor. apply header_plain. }
  destruct (levels_plain_prefix declarations 0
              (["{"; op_name operation] ++ bindings ++ sub ++ ["}"; "`"; ""]) Hdecl)
    as [-> ->].
  change (levelAfter 0 (["{"; op_name operation] ++ bindings ++ sub ++ ["}"; "`"; ""]))
    with (levelAfter 1 ([op_name operation] ++ bindings ++ sub ++ ["}"; "`"; ""])).
  change (deepestLevel 0 (["{"; op_name operation] ++ bindings ++ sub ++ ["}"; "`"; ""]))
    with (deepestLevel 1 ([op_name operation] ++ bindings ++ sub ++ ["}"; "`"; ""])).
  destruct (levels_plain_prefix [op_name operation] 1
              (bindings ++ sub ++ ["}"; "`"; ""])) as [-> ->].
  { now repeat constructor. }
  destruct (levels_plain_prefix bindings 1 (sub ++ ["}"; "`"; ""]) Hbind) as [-> ->].
  rewrite levelAfter_app, deepestLevel_app, Hsub_level. simpl. split; [reflexivity | lia].
Qed.

(** C2: a field whose bare type is a catalog key gets a nested block exactly
    while [depth] is strictly below the maximum, the block holding what
    [selectFields] pushes for every field of that type at [depth + 1]; from
    the maximum on the field name is pushed alone. Hence the braces that
    [selectFields] opens below a field never nest deeper than the levels
    left ([maxFieldsSelectionDepth - depth]), and the whole array of an
    operation never nests deeper than the maximum plus the two blocks of the
    root (the operation's block and the root field's block). *)
Theorem selectFields_depth_guard
    (types : TypeCatalog) (maxFieldsSelectionDepth : nat)
    (Hnames : braceFreeNames types) :
  (∀ field code depth items,
     types !! getTypeName (field_type field) false = Some items →
     (depth < maxFieldsSelectionDepth →
      ∃ inner,
        forEach
          (fun code item =>
             selectFields types maxFieldsSelectionDepth item code (depth + 1))
          items [] = Some inner
        ∧ selectFields types maxFieldsSelectionDepth field code depth
          = Some (code ++ field_name field :: "{" :: inner ++ ["}"]))
     ∧ (maxFieldsSelectionDepth ≤ depth →
        selectFields types maxFieldsSelectionDepth field code depth
        = Some (code ++ [field_name field])))
  ∧ (∀ field code depth,
       isBrace (field_name field) = false →
       ∃ pushed,
         selectFields types maxFieldsSelectionDepth field code depth
         = Some (code ++ pushed)
         ∧ ∀ cur,
             levelAfter cur pushed = cur
             ∧ deepestLevel cur pushed ≤ cur + (maxFieldsSelectionDepth - depth))
  ∧ (∀ operation,
       isBrace (op_name operation) = false →
       ∃ tokens,
         generateCodeTokens types maxFieldsSelectionDepth operation = Some tokens
         ∧ deepestLevel 0 tokens ≤ maxFieldsSelectionDepth + 2).
Proof.
  split; [| split].
  - intros field code depth items Hitems. split.
    + intros Hlt. eexists. split; [apply forEach_selectFields |].
      rewrite selectFields_selection, selection_unfold, Hitems.
      replace (maxFieldsSelectionDepth - depth)
        with (S (maxFieldsSelectionDepth - (depth + 1))) by lia.
      reflexivity.
    + intros Hge. rewrite selectFields_selection, selection_unfold, Hitems.
      replace (maxFieldsSelectionDepth - depth) with 0 by lia. reflexivity.
  - intros field code depth Hplain. eexists. split; [apply selectFields_selection |].
    intros cur. now apply selection_levels.
  - intros operation Hplain.
    destruct (generateCodeTokens_levels types maxFieldsSelectionDepth operation
                Hnames Hplain) as (tokens & Htokens & _ & Hdeep).
    eauto.
Qed.

Lemma fooCatalog_braceFreeNames : braceFreeNames fooCatalog.
Proof.
  unfold braceFreeNames, fooCatalog.
  apply map_Forall_insert_2; [repeat constructor |].
  apply map_Forall_insert_2; [repeat constructor |].
  apply map_Forall_empty.
Qed.

Lemma selectFields_depth_guard_witness :
  braceFreeNames fooCatalog
  ∧ selectFields fooCatalog 2 selfField ["bar"] 2 = Some (["bar"] ++ ["self"])
  ∧ ∃ tokens,
      generateCodeTokens fooCatalog 2 fooOperation = Some tokens
      ∧ deepestLevel 0 tokens ≤ 2 + 2.
Proof.
  split; [exact fooCatalog_braceFreeNames |].
  pose proof (selectFields_depth_guard fooCatalog 2 fooCatalog_braceFreeNames)
    as (Hguard & _ & Hwhole).
  split.
  - exact (proj2 (Hguard selfField ["bar"] 2 fooFields eq_refl) (le_n 2)).
  - exact (Hwhole fooOperation eq_refl).
Defined.

Lemma hasArguments_length operation :
  hasArguments operation = bool_decide (0 < length (argumentsOf operation)).
Proof.
  unfold hasArguments, argumentsOf.
  now destruct (field_arguments (op_astValue operation)).
Qed.

(** C5: with [args] the declared arguments of an operation, the declaration
    list and the binding list that are joined into the text have one entry
    per argument, in declaration order: entry [i] of the first is
    [$name: Type] and entry [i] of the second is [name: $name] for the same
    argument [i], so every bound variable is declared. With at least one
    argument both lists are pushed, between parentheses, after the header
    and after the root field name; with none, neither is pushed. *)
Theorem argument_lists_agree
    (types : TypeCatalog) (maxFieldsSelectionDepth : nat) (operation : Operation) :
  let args := argumentsOf operation in
  let declarations :=
    map (fun arg => "$" +:+ arg_name arg +:+ ": " +:+ getTypeName (arg_type arg) true) args in
  let bindings :=
    map (fun arg => arg_name arg +:+ ": $" +:+ arg_name arg) args in
  let header :=
    [import_line; ""; "export default gql`";
     kind_text (op_kind operation) +:+ " " +:+ upperFirst (op_name operation)] in
  length declarations = length args
  ∧ length bindings = length args
  ∧ (∀ i : nat,
       declarations !! i
       = (fun arg => "$" +:+ arg_name arg +:+ ": " +:+ printedType (arg_type arg))
           <$> args !! i)
  ∧ (∀ i : nat,
       bindings !! i = (fun arg => arg_name arg +:+ ": $" +:+ arg_name arg) <$> args !! i)
  ∧ (0 < length args →
     ∃ rest,
       generateCodeTokens types maxFieldsSelectionDepth operation
       = Some (header
               ++ ["("; join "," declarations; ")"; "{"; op_name operation;
                   "("; join "," bindings; ")"]
               ++ rest))
  ∧ (length args = 0 →
     ∃ rest,
       generateCodeTokens types maxFieldsSelectionDepth operation
       = Some (header ++ ["{"; op_name operation] ++ rest)
       ∧ (rest = ["}"; "`"; ""] ∨ ∃ inner, rest = "{" :: inner ++ ["}"; "}"; "`"; ""])).
Proof.
  intros args declarations bindings header.
  split; [apply length_map |]. split; [apply length_map |].
  split.
  { intros i. subst declarations. change map with (@fmap list _) at 1.
    rewrite list_lookup_fmap. destruct (args !! i) as [arg |]; simpl; [| reflexivity].
    now rewrite getTypeName_printed. }
  split.
  { intros i. subst bindings. change map with (@fmap list _) at 1.
    now rewrite list_lookup_fmap. }
  rewrite generateCodeTokens_eq, hasArguments_length. fold args. split.
  - intros Hsome. rewrite bool_decide_eq_true_2 by exact Hsome.
    eexists. subst header. simpl. reflexivity.
  - intros Hnone. rewrite bool_decide_eq_false_2 by lia.
    eexists. split; [subst header; simpl; reflexivity |].
    destruct (types !! getTypeName (field_type (op_astValue operation)) false)
      as [fields |].
    + right. eexists. simpl. rewrite <- app_assoc. reflexivity.
    + left. reflexivity.
Qed.

Lemma argument_lists_agree_witness :
  ∃ rest,
    generateCodeTokens fooCatalog 2 fooOperation
    = Some ([import_line; ""; "export default gql`"; "query Foo"]
            ++ ["("; "$id: ID!,$tags: [String!]"; ")"; "{"; "foo";
                "("; "id: $id,tags: $tags"; ")"]
            ++ rest).
Proof.
  exact (proj1 (proj2 (proj2 (proj2 (proj2
           (argument_lists_agree fooCatalog 2 fooOperation)))))
           (Nat.lt_0_succ 1)).
Defined.

(** C7: for a root field without arguments whose bare return type is not a
    catalog key, the array is the import line, an empty line, the opening of
    the template, the header [kind PascalCase(name)] with no parenthesized
    list, a root block holding the field name alone, and the closing of the
    template; the text handed to the formatter is these joined by
    newlines. For [now: String] under [Query] the header is [query Now] and
    the block holds [now]. *)
Theorem scalar_root_field_text
    (prettier_format : string → option string)
    (types : TypeCatalog) (maxFieldsSelectionDepth : nat) (operation : Operation)
    (Hnoargs : argumentsOf operation = [])
    (Hscalar : types !! bareName (field_type (op_astValue operation)) = None) :
  let header :=
    kind_text (op_kind operation) +:+ " " +:+ upperFirst (op_name operation) in
  let text :=
    import_line +:+ newline +:+ "" +:+ newline +:+ "export default gql`" +:+ newline
    +:+ header +:+ newline +:+ "{" +:+ newline +:+ op_name operation +:+ newline
    +:+ "}" +:+ newline +:+ "`" +:+ newline +:+ "" in
  generateCodeTokens types maxFieldsSelectionDepth operation
  = Some [import_line; ""; "export default gql`"; header;
          "{"; op_name operation; "}"; "`"; ""]
  ∧ generateCodeText types maxFieldsSelectionDepth operation = Some text
  ∧ generateCodeForOperation prettier_format operation types maxFieldsSelectionDepth
    = prettier_format text.
Proof.
  intros header text.
  assert (generateCodeTokens types maxFieldsSelectionDepth operation
          = Some [import_line; ""; "export default gql`"; header;
                  "{"; op_name operation; "}"; "`"; ""]) as Htokens.
  { rewrite generateCodeTokens_eq, hasArguments_length, Hnoargs.
    rewrite getTypeName_bare, Hscalar. reflexivity. }
  assert (generateCodeText types maxFieldsSelectionDepth operation = Some text) as Htext.
  { unfold generateCodeText. rewrite Htokens. reflexivity. }
  split; [exact Htokens |]. split; [exact Htext |].
  unfold generateCodeForOperation. rewrite Htext. reflexivity.
Qed.

Lemma scalar_root_field_text_witness :
  findOperationsAndTypes nowSchema = Some ([nowOperation], ∅)
  ∧ generateCodeTokens ∅ 2 nowOperation
    = Some [import_line; ""; "export default gql`"; "query Now"; "{"; "now"; "}"; "`"; ""].
Proof.
  split; [reflexivity |].
  exact (proj1 (scalar_root_field_text Some ∅ 2 nowOperation eq_refl eq_refl)).
Defined.

(** C9: when the bare return type of an operation is a catalog key, the
    block of the root field is opened and closed around whatever its fields
    push, whatever their number; for a type with no field the array holds
    an opening brace directly followed by its closing brace, and that is the
    text the formatter is given. *)
Theorem root_block_always_opened
    (prettier_format : string → option string)
    (types : TypeCatalog) (maxFieldsSelectionDepth : nat) (operation : Operation)
    (fields : list FieldDefinitionNode)
    (Hcatalog : types !! bareName (field_type (op_astValue operation)) = Some fields) :
  let before :=
    [import_line; ""; "export default gql`";
     kind_text (op_kind operation) +:+ " " +:+ upperFirst (op_name operation)]
    ++ (if hasArguments operation
        then ["("; join "," (map declaration_entry (argumentsOf operation)); ")"]
        else [])
    ++ ["{"; op_name operation]
    ++ (if hasArguments operation
        then ["("; join "," (map binding_entry (argumentsOf operation)); ")"]
        else []) in
  (∃ inner,
     forEach
       (fun code field => selectFields types maxFieldsSelectionDepth field code 0)
       fields [] = Some inner
     ∧ generateCodeTokens types maxFieldsSelectionDepth operation
       = Some (before ++ ["{"] ++ inner ++ ["}"; "}"; "`"; ""]))
  ∧ (fields = [] →
     generateCodeTokens types maxFieldsSelectionDepth operation
     = Some (before ++ ["{"; "}"; "}"; "`"; ""])
     ∧ generateCodeForOperation prettier_format operation types maxFieldsSelectionDepth
       = prettier_format (join newline (before ++ ["{"; "}"; "}"; "`"; ""]))).
Proof.
  intros before.
  assert (generateCodeTokens types maxFieldsSelectionDepth operation
          = Some (before ++ ["{"]
                  ++ (fields ≫= selection types maxFieldsSelectionDepth)
                  ++ ["}"; "}"; "`"; ""])) as Htokens.
  { rewrite generateCodeTokens_eq, getTypeName_bare, Hcatalog. subst before.
    f_equal. rewrite <- !app_assoc. do 3 f_equal. simpl. f_equal.
    now rewrite <- app_assoc. }
  split.
  - eexists. split; [apply forEach_selectFields |].
    rewrite Nat.sub_0_r. exact Htokens.
  - intros ->. split; [exact Htokens |].
    unfold generateCodeForOperation, generateCodeText. rewrite Htokens. reflexivity.
Qed.

Lemma root_block_always_opened_witness :
  emptyCatalog !! "Empty" = Some []
  ∧ generateCodeTokens emptyCatalog 2 emptyOperation
    = Some [import_line; ""; "export default gql`"; "query Empty";
            "{"; "empty"; "{"; "}"; "}"; "`"; ""].
Proof.
  split; [reflexivity |].
  exact (proj1 (proj2 (root_block_always_opened Some emptyCatalog 2 emptyOperation []
                         eq_refl) eq_refl)).
Defined.

(* ===================================================================== *)
(** ** Properties of the handlers                                         *)
(* ===================================================================== *)

Lemma writtenFiles_snoc nodes node before :
  writtenFiles (nodes ++ [node]) before
  = <[node_fileName node := node_code node]> (writtenFiles nodes before).
Proof. unfold writtenFiles. now rewrite fold_left_app. Qed.

Lemma writtenFiles_other nodes before (fileName : string) :
  fileName ∉ node_fileName <$> nodes →
  writtenFiles nodes before !! fileName = before !! fileName.
Proof.
  induction nodes as [| node nodes IH] using rev_ind; intros Hfresh; [reflexivity |].
  rewrite fmap_app in Hfresh. apply not_elem_of_app in Hfresh as [Hnodes Hnode].
  rewrite writtenFiles_snoc, lookup_insert_ne; [now apply IH |].
  intros Heq. subst fileName. apply Hnode. simpl. apply list_elem_of_here.
Qed.

Lemma writtenFiles_present nodes before node :
  node ∈ nodes → is_Some (writtenFiles nodes before !! node_fileName node).
Proof.
  induction nodes as [| last nodes IH] using rev_ind; intros Hin.
  - now apply not_elem_of_nil in Hin.
  - rewrite writtenFiles_snoc.
    destruct (decide (node_fileName last = node_fileName node)) as [Heq | Hne].
    + rewrite Heq, lookup_insert_eq. eauto.
    + rewrite lookup_insert_ne by exact Hne. apply IH.
      apply elem_of_app in Hin as [Hin | Hin]; [exact Hin |].
      apply list_elem_of_singleton in Hin. now subst.
Qed.

Lemma writtenFiles_content nodes before node :
  NoDup (node_fileName <$> nodes) → node ∈ nodes →
  writtenFiles nodes before !! node_fileName node = Some (node_code node).
Proof.
  induction nodes as [| last nodes IH] using rev_ind; intros Hnodup Hin.
  - now apply not_elem_of_nil in Hin.
  - rewrite fmap_app in Hnodup. apply NoDup_app in Hnodup as (Hnodes & Hdisjoint & _).
    rewrite writtenFiles_snoc.
    apply elem_of_app in Hin as [Hin | Hin].
    + rewrite lookup_insert_ne; [now apply IH |].
      intros Heq. apply (Hdisjoint (node_fileName node)).
      * now apply list_elem_of_fmap_2.
      * rewrite <- Heq. simpl. apply list_elem_of_here.
    + apply list_elem_of_singleton in Hin. subst. apply lookup_insert_eq.
Qed.

Lemma everyRun_absent nodes w :
  everyRun
    (fun node => found <~ existsSync (node_fileName node) ;; ret (negb found))
    nodes w
  = (w, Some (forallb
                (fun node => negb (bool_decide (is_Some (files w !! node_fileName node))))
                nodes)).
Proof.
  induction nodes as [| node nodes IH]; [reflexivity |].
  simpl. unfold bind at 1. unfold bind at 1. unfold existsSync, ret at 1.
  destruct (bool_decide (is_Some (files w !! node_fileName node))); simpl.
  - reflexivity.
  - exact IH.
Qed.

Lemma forEachRun_write nodes : ∀ w,
  forEachRun
    (fun node =>
       writeFileSync (node_fileName node) (node_code node) ;;;
       console_log ("Written to " +:+ node_fileName node))
    nodes w
  = (mkWorld (writtenFiles nodes (files w))
       (stdout w
        ++ map (fun node => "Written to " +:+ node_fileName node +:+ newline) nodes)
       (requests w),
     Some tt).
Proof.
  induction nodes as [| node nodes IH]; intros w.
  - destruct w. simpl. unfold ret. now rewrite app_nil_r.
  - simpl. unfold bind at 1. unfold bind at 1.
    unfold writeFileSync, console_log. rewrite IH. simpl.
    unfold push. now rewrite <- app_assoc.
Qed.

(** C3: in write mode, when none of the target file names exists, every
    node is written in order and reported, so that afterwards every target
    exists (holding its node's code when the names are distinct) and the
    other files are as before; when any target exists, the world is left
    exactly as it was: no file is written, nothing is printed. Both ways the
    handler returns without throwing. *)
Theorem write_mode_all_or_nothing (nodes : list Node) (w : World) :
  (Forall (fun node => files w !! node_fileName node = None) nodes →
   emitNodes true nodes w
   = (mkWorld (writtenFiles nodes (files w))
        (stdout w
         ++ map (fun node => "Written to " +:+ node_fileName node +:+ newline) nodes)
        (requests w),
      Some tt)
   ∧ (∀ node, node ∈ nodes →
        is_Some (writtenFiles nodes (files w) !! node_fileName node))
   ∧ (NoDup (node_fileName <$> nodes) →
      ∀ node, node ∈ nodes →
        writtenFiles nodes (files w) !! node_fileName node = Some (node_code node))
   ∧ (∀ fileName : string, fileName ∉ node_fileName <$> nodes →
        writtenFiles nodes (files w) !! fileName = files w !! fileName))
  ∧ (Exists (fun node => is_Some (files w !! node_fileName node)) nodes →
     emitNodes true nodes w = (w, Some tt)).
Proof.
  split.
  - intros Habsent. split; [| split; [| split]].
    + unfold emitNodes, bind. rewrite everyRun_absent.
      assert (forallb
                (fun node => negb (bool_decide (is_Some (files w !! node_fileName node))))
                nodes = true) as ->.
      { apply forallb_forall. intros node Hin. apply list_elem_of_In in Hin.
        rewrite Forall_forall in Habsent. rewrite (Habsent node Hin).
        rewrite bool_decide_eq_false_2; [reflexivity | apply is_Some_None]. }
      apply forEachRun_write.
    + intros node. apply writtenFiles_present.
    + intros Hnodup node. now apply writtenFiles_content.
    + intros fileName. apply writtenFiles_other.
  - intros Hexists. unfold emitNodes, bind. rewrite everyRun_absent.
    assert (forallb
              (fun node => negb (bool_decide (is_Some (files w !! node_fileName node))))
              nodes = false) as ->; [| reflexivity].
    apply not_true_is_false. intros Hall.
    apply Exists_exists in Hexists as (node & Hin & Hsome).
    rewrite forallb_forall in Hall. apply list_elem_of_In in Hin.
    specialize (Hall node Hin). rewrite bool_decide_eq_true_2 in Hall by exact Hsome.
    discriminate.
Qed.

Lemma write_mode_all_or_nothing_witness :
  (Forall (fun node => files emptyWorld !! node_fileName node = None) sampleNodes
   ∧ (emitNodes true sampleNodes emptyWorld).1
     = {| files := <["FooQuery.ts" := "foo"]> (<["NowQuery.ts" := "now"]> ∅);
          stdout := ["Written to NowQuery.ts" +:+ newline;
                     "Written to FooQuery.ts" +:+ newline];
          requests := [] |})
  ∧ (Exists (fun node => is_Some (files occupiedWorld !! node_fileName node)) sampleNodes
     ∧ emitNodes true sampleNodes occupiedWorld = (occupiedWorld, Some tt)).
Proof.
  assert (Forall (fun node => files emptyWorld !! node_fileName node = None) sampleNodes)
    as Habsent by (repeat constructor).
  assert (Exists (fun node => is_Some (files occupiedWorld !! node_fileName node))
            sampleNodes) as Hexists by (apply Exists_cons_hd; exists "kept"; reflexivity).
  split; split.
  - exact Habsent.
  - exact (f_equal fst
             (proj1 (proj1 (write_mode_all_or_nothing sampleNodes emptyWorld) Habsent))).
  - exact Hexists.
  - exact (proj2 (write_mode_all_or_nothing sampleNodes occupiedWorld) Hexists).
Defined.

(** C8: with an empty list of requested operations the handler returns at
    once: the world after is the world before (no request sent, nothing
    printed, no file written) and nothing is thrown, whatever the endpoint,
    the formatter and the other arguments are. *)
Theorem generate_without_operations
    (getIntrospectionQuery : string)
    (receiveSchema : Request → option DocumentNode)
    (prettier_format : string → option string)
    (url : string) (type : OperationKind) (write : bool) (w : World) :
  generateHandler getIntrospectionQuery receiveSchema prettier_format
    {| argv_url := url; argv_type := type; argv_operations := []; argv_write := write |} w
  = (w, Some tt).
Proof. reflexivity. Qed.

(** What a fetch does to the world: one request more, the one of
    [introspectionRequest], whatever [url] is. *)
Lemma fetchSchemaWithIntrospection_request
    (getIntrospectionQuery : string)
    (receiveSchema : Request → option DocumentNode) (url : string) (w : World) :
  fetchSchemaWithIntrospection getIntrospectionQuery receiveSchema url w
  = ({| files := files w; stdout := stdout w;
        requests := requests w ++ [introspectionRequest getIntrospectionQuery] |},
     receiveSchema (introspectionRequest getIntrospectionQuery)).
Proof. reflexivity. Qed.

(** C1 (the code at a failing input): called with the endpoint
    [https://api.example.com/graphql], the fetch sends its single POST, with
    the introspection query as body, to [http://localhost:25202/]: the
    address is written in the function and the argument is not read. *)
Theorem fetch_ignores_supplied_url :
  (fetchSchemaWithIntrospection "query IntrospectionQuery" (fun _ => Some nowSchema)
     "https://api.example.com/graphql" emptyWorld).1
  = {| files := ∅; stdout := [];
       requests :=
         [{| req_url := "http://localhost:25202/";
             req_method := "POST";
             req_headers := [("Content-Type", "application/json")];
             req_body := [("query", "query IntrospectionQuery")] |}] |}
  ∧ "http://localhost:25202/" ≠ "https://api.example.com/graphql".
Proof. split; [reflexivity | discriminate]. Qed.

(** Once the schema is fetched and the nodes are built, the handler is the
    emission of the nodes. *)
Lemma generateHandler_emits
    (getIntrospectionQuery : string)
    (receiveSchema : Request → option DocumentNode)
    (prettier_format : string → option string)
    (argv : GenerateArgv) (w : World)
    (schema : DocumentNode) (found : Found) (nodes : list Node) :
  argv_operations argv ≠ [] →
  receiveSchema (introspectionRequest getIntrospectionQuery) = Some schema →
  findOperationsAndTypes schema = Some found →
  buildNodes prettier_format argv found.1 found.2 = Some nodes →
  generateHandler getIntrospectionQuery receiveSchema prettier_format argv w
  = emitNodes (argv_write argv) nodes
      {| files := files w; stdout := stdout w;
         requests := requests w ++ [introspectionRequest getIntrospectionQuery] |}.
Proof.
  intros Hsome Hschema Hfound Hnodes. unfold generateHandler.
  rewrite bool_decide_eq_false_2.
  - unfold bind at 1. rewrite fetchSchemaWithIntrospection_request, Hschema.
    unfold bind at 1, lift at 1. rewrite Hfound.
    unfold bind at 1, lift at 1. rewrite Hnodes. reflexivity.
  - intros Hlen. apply Hsome. now apply nil_length_inv.
Qed.

(** The scenario of the README: [generate <url> query now] on
    [type Query { now: String }] prints the file name as a comment and then
    the formatted text; the listing command prints [now]. *)
Example generate_now_prints (prettier_format : string → option string) (code : string) :
  prettier_format
    (import_line +:+ newline +:+ newline +:+ "export default gql`" +:+ newline
     +:+ "query Now" +:+ newline +:+ "{" +:+ newline +:+ "now" +:+ newline
     +:+ "}" +:+ newline +:+ "`" +:+ newline) = Some code →
  generateHandler "query IntrospectionQuery" (fun _ => Some nowSchema) prettier_format
    {| argv_url := "http://localhost:25202/"; argv_type := query;
       argv_operations := ["now"]; argv_write := false |} emptyWorld
  = ({| files := ∅;
        stdout := ["// NowQuery.ts" +:+ newline; code];
        requests := [introspectionRequest "query IntrospectionQuery"] |},
     Some tt).
Proof.
  intros Hformat.
  assert (generateCodeForOperation prettier_format nowOperation ∅
            defaultMaxFieldsSelectionDepth = Some code) as Hcode by exact Hformat.
  rewrite (generateHandler_emits "query IntrospectionQuery" (fun _ => Some nowSchema)
             prettier_format _ emptyWorld nowSchema ([nowOperation], ∅)
             [{| node_name := "NowQuery"; node_fileName := "NowQuery.ts";
                 node_code := code |}]).
  - reflexivity.
  - discriminate.
  - reflexivity.
  - reflexivity.
  - unfold buildNodes.
    change (List.filter _ ([nowOperation], ∅).1) with [nowOperation].
    cbn -[generateCodeForOperation]. rewrite Hcode. reflexivity.
Qed.

Example list_now_prints :
  listHandler "query IntrospectionQuery" (fun _ => Some nowSchema)
    {| largv_url := "http://localhost:25202/"; largv_filter := query |} emptyWorld
  = ({| files := ∅; stdout := ["now" +:+ newline];
        requests := [introspectionRequest "query IntrospectionQuery"] |},
     Some tt).
Proof. reflexivity. Qed.

(** With two definitions named [Query] that both declare [now], the request
    for [now] builds two nodes, for the same file name. *)
Example duplicate_roots_match_twice :
  match findOperationsAndTypes twiceQuerySchema with
  | Some found =>
      option_map (map node_fileName)
        (buildNodes Some
           {| argv_url := "http://localhost:25202/"; argv_type := query;
              argv_operations := ["now"]; argv_write := false |}
           found.1 found.2)
  | None => None
  end
  = Some ["NowQuery.ts"; "NowQuery.ts"].
Proof. reflexivity. Qed.

(* ===================================================================== *)
(** ** Further properties of the handlers                                 *)
(* ===================================================================== *)

Lemma forEachRun_log {A : Type} (line : A → string) (items : list A) : ∀ w,
  forEachRun (fun item => console_log (line item)) items w
  = ({| files := files w;
        stdout := stdout w ++ map (fun item => line item +:+ newline) items;
        requests := requests w |},
     Some tt).
Proof.
  induction items as [| item items IH]; intros w.
  - destruct w. simpl. unfold ret. now rewrite app_nil_r.
  - simpl. unfold bind at 1. unfold console_log at 1. rewrite IH. simpl.
    unfold push. now rewrite <- app_assoc.
Qed.

Lemma forEachRun_print nodes : ∀ w,
  forEachRun
    (fun node =>
       console_log ("// " +:+ node_fileName node) ;;;
       stdout_write (node_code node))
    nodes w
  = ({| files := files w; stdout := stdout w ++ printedChunks nodes;
        requests := requests w |},
     Some tt).
Proof.
  induction nodes as [| node nodes IH]; intros w.
  - destruct w. simpl. unfold ret. now rewrite app_nil_r.
  - simpl. unfold bind at 1. unfold bind at 1.
    unfold console_log, stdout_write. rewrite IH. simpl.
    unfold push. rewrite <- !app_assoc. reflexivity.
Qed.

(** The emission in closed form. *)
Lemma emitNodes_eq (write : bool) (nodes : list Node) (w : World) :
  emitNodes write nodes w
  = if write then
      if allAbsent nodes w then
        ({| files := writtenFiles nodes (files w);
            stdout :=
              stdout w
              ++ map (fun node => "Written to " +:+ node_fileName node +:+ newline) nodes;
            requests := requests w |},
         Some tt)
      else (w, Some tt)
    else
      ({| files := files w; stdout := stdout w ++ printedChunks nodes;
          requests := requests w |},
       Some tt).
Proof.
  destruct write.
  - unfold emitNodes, bind. rewrite everyRun_absent. fold (allAbsent nodes w).
    destruct (allAbsent nodes w); [apply forEachRun_write | reflexivity].
  - apply forEachRun_print.
Qed.

(** The [generate] handler in closed form: the early return, the three
    places where it may throw once the request is sent, and the emission. *)
Lemma generateHandler_eq
    (getIntrospectionQuery : string)
    (receiveSchema : Request → option DocumentNode)
    (prettier_format : string → option string)
    (argv : GenerateArgv) (w : World) :
  generateHandler getIntrospectionQuery receiveSchema prettier_format argv w
  = match argv_operations argv with
    | [] => (w, Some tt)
    | _ :: _ =>
        match receiveSchema (introspectionRequest getIntrospectionQuery) with
        | None => (afterRequest getIntrospectionQuery w, None)
        | Some schema =>
            match findOperationsAndTypes schema with
            | None => (afterRequest getIntrospectionQuery w, None)
            | Some found =>
                match buildNodes prettier_format argv found.1 found.2 with
                | None => (afterRequest getIntrospectionQuery w, None)
                | Some nodes =>
                    emitNodes (argv_write argv) nodes
                      (afterRequest getIntrospectionQuery w)
                end
            end
        end
    end.
Proof.
  unfold generateHandler.
  destruct (argv_operations argv) as [| name names] eqn:Hnames; [reflexivity |].
  rewrite bool_decide_eq_false_2 by discriminate.
  unfold bind at 1. rewrite fetchSchemaWithIntrospection_request.
  fold (afterRequest getIntrospectionQuery w).
  destruct (receiveSchema (introspectionRequest getIntrospectionQuery)) as [schema |];
    [| reflexivity].
  unfold bind at 1, lift at 1.
  destruct (findOperationsAndTypes schema) as [found |]; [| reflexivity].
  unfold bind at 1, lift at 1.
  destruct (buildNodes prettier_format argv found.1 found.2) as [nodes |]; reflexivity.
Qed.

Lemma allAbsent_true nodes w :
  allAbsent nodes w = true
  ↔ Forall (fun node => files w !! node_fileName node = None) nodes.
Proof.
  unfold allAbsent. rewrite forallb_forall, Forall_forall. split.
  - intros Hall node Hin. apply list_elem_of_In, Hall in Hin.
    apply negb_true_iff, bool_decide_eq_false in Hin.
    now apply eq_None_not_Some.
  - intros Hall node Hin. apply list_elem_of_In, Hall in Hin. rewrite Hin.
    rewrite bool_decide_eq_false_2; [reflexivity | apply is_Some_None].
Qed.

Lemma emitNodes_requests write nodes w :
  requests (emitNodes write nodes w).1 = requests w.
Proof.
  rewrite emitNodes_eq. destruct write; [destruct (allAbsent nodes w) |]; reflexivity.
Qed.

Lemma listHandler_found
    (getIntrospectionQuery : string)
    (receiveSchema : Request → option DocumentNode)
    (argv : ListArgv) (w : World) (schema : DocumentNode) (found : Found) :
  receiveSchema (introspectionRequest getIntrospectionQuery) = Some schema →
  findOperationsAndTypes schema = Some found →
  listHandler getIntrospectionQuery receiveSchema argv w
  = ({| files := files w;
        stdout :=
          stdout w
          ++ map (fun operation => op_name operation +:+ newline)
               (List.filter
                  (fun operation => bool_decide (op_kind operation = largv_filter argv))
                  found.1);
        requests := requests w ++ [introspectionRequest getIntrospectionQuery] |},
     Some tt).
Proof.
  intros Hfetch Hfound. unfold listHandler.
  unfold bind at 1. rewrite fetchSchemaWithIntrospection_request, Hfetch.
  unfold bind at 1, lift at 1. rewrite Hfound.
  unfold bind at 1. destruct (largv_filter argv).
  - rewrite bool_decide_eq_true_2 by reflexivity.
    rewrite forEachRun_log. rewrite bool_decide_eq_false_2 by discriminate.
    reflexivity.
  - rewrite bool_decide_eq_false_2 by discriminate. unfold ret at 1.
    rewrite bool_decide_eq_true_2 by reflexivity.
    rewrite forEachRun_log. reflexivity.
Qed.

(** X1: when the fetch gives a document (whose root definitions carry their
    field arrays), the listing command prints the name of every root field of
    the kind asked for, one per line, in document order over all the
    definitions named Query or Mutation; it sends one request and leaves the
    files alone. *)
Theorem list_prints_names_of_kind
    (getIntrospectionQuery : string)
    (receiveSchema : Request → option DocumentNode)
    (argv : ListArgv) (w : World) (schema : DocumentNode)
    (Hfetch : receiveSchema (introspectionRequest getIntrospectionQuery) = Some schema)
    (Hroot : rootFieldsPresent schema = true) :
  listHandler getIntrospectionQuery receiveSchema argv w
  = ({| files := files w;
        stdout :=
          stdout w
          ++ map (fun operation => op_name operation +:+ newline)
               (List.filter
                  (fun operation => bool_decide (op_kind operation = largv_filter argv))
                  (schema ≫= contributedOperations));
        requests := requests w ++ [introspectionRequest getIntrospectionQuery] |},
     Some tt).
Proof.
  destruct (visit_operations schema [] ∅ Hroot) as [types Hfound].
  exact (listHandler_found _ _ argv w schema _ Hfetch Hfound).
Qed.

Lemma list_prints_names_of_kind_witness :
  rootFieldsPresent twiceQuerySchema = true
  ∧ listHandler "query IntrospectionQuery" (fun _ => Some twiceQuerySchema)
      {| largv_url := "http://localhost:25202/"; largv_filter := query |} emptyWorld
    = ({| files := ∅;
          stdout := ["now" +:+ newline; "now" +:+ newline];
          requests := [introspectionRequest "query IntrospectionQuery"] |},
       Some tt).
Proof.
  split; [reflexivity |].
  exact (list_prints_names_of_kind "query IntrospectionQuery"
           (fun _ => Some twiceQuerySchema)
           {| largv_url := "http://localhost:25202/"; largv_filter := query |}
           emptyWorld twiceQuerySchema eq_refl eq_refl).
Defined.

(** X2: when the fetch throws, or gives a document in which a Query or
    Mutation definition has no field array, both handlers throw once the
    request is sent: nothing is printed and no file is written. *)
Theorem failed_fetch_aborts
    (getIntrospectionQuery : string)
    (receiveSchema : Request → option DocumentNode)
    (prettier_format : string → option string)
    (w : World)
    (Hfailed :
       match receiveSchema (introspectionRequest getIntrospectionQuery) with
       | Some schema => rootFieldsPresent schema = false
       | None => True
       end) :
  (∀ argv,
     listHandler getIntrospectionQuery receiveSchema argv w
     = (afterRequest getIntrospectionQuery w, None))
  ∧ (∀ argv,
       argv_operations argv ≠ [] →
       generateHandler getIntrospectionQuery receiveSchema prettier_format argv w
       = (afterRequest getIntrospectionQuery w, None)).
Proof.
  assert (match receiveSchema (introspectionRequest getIntrospectionQuery) with
          | Some schema => findOperationsAndTypes schema = None
          | None => True
          end) as Hnone.
  { destruct (receiveSchema (introspectionRequest getIntrospectionQuery))
      as [schema |]; [| exact I].
    destruct (findOperationsAndTypes schema) as [found |] eqn:Hfound; [| reflexivity].
    exfalso. clear -Hfailed Hfound. unfold findOperationsAndTypes in Hfound.
    revert Hfound. generalize (([], ∅) : Found).
    induction schema as [| node schema IH]; intros acc Hvisit; [discriminate |].
    simpl in Hfailed. apply andb_false_iff in Hfailed.
    simpl in Hvisit.
    destruct (visitDefinition acc node) as [acc' |] eqn:Hstep; [| discriminate].
    destruct Hfailed as [Hnode | Hrest]; [| exact (IH Hrest acc' Hvisit)].
    destruct node as [name [fs |] | kind name]; try discriminate.
    apply negb_false_iff in Hnode. destruct acc as [operations types].
    unfold visitDefinition, visitObjectTypeDefinition in Hstep.
    rewrite Hnode in Hstep. discriminate. }
  split.
  - intros argv. unfold listHandler.
    unfold bind at 1. rewrite fetchSchemaWithIntrospection_request.
    fold (afterRequest getIntrospectionQuery w).
    destruct (receiveSchema (introspectionRequest getIntrospectionQuery))
      as [schema |]; [| reflexivity].
    unfold bind at 1, lift at 1. now rewrite Hnone.
  - intros argv Hsome. rewrite generateHandler_eq.
    destruct (argv_operations argv) as [| name names]; [contradiction |].
    destruct (receiveSchema (introspectionRequest getIntrospectionQuery))
      as [schema |]; [| reflexivity].
    now rewrite Hnone.
Qed.

Lemma failed_fetch_aborts_witness :
  generateHandler "query IntrospectionQuery"
    (fun _ => Some [ObjectTypeDefinition "Query" None]) Some
    {| argv_url := "http://localhost:25202/"; argv_type := query;
       argv_operations := ["now"]; argv_write := true |} emptyWorld
  = (afterRequest "query IntrospectionQuery" emptyWorld, None).
Proof.
  refine (proj2 (failed_fetch_aborts "query IntrospectionQuery"
                   (fun _ => Some [ObjectTypeDefinition "Query" None]) Some
                   emptyWorld eq_refl) _ _).
  discriminate.
Defined.

(** X3: print mode writes, for every node in order, the comment line with
    the file name and then the code as it is; it returns without throwing
    and looks at no file, so targets that exist change nothing. *)
Theorem print_mode_prints_every_node (nodes : list Node) (w : World) :
  emitNodes false nodes w
  = ({| files := files w; stdout := stdout w ++ printedChunks nodes;
        requests := requests w |},
     Some tt)
  ∧ length (printedChunks nodes) = 2 * length nodes
  ∧ ∀ (i : nat) node,
      nodes !! i = Some node →
      printedChunks nodes !! (2 * i) = Some ("// " +:+ node_fileName node +:+ newline)
      ∧ printedChunks nodes !! (2 * i + 1) = Some (node_code node).
Proof.
  split; [apply (emitNodes_eq false) |].
  split.
  - induction nodes as [| node nodes IH]; [reflexivity |].
    change (printedChunks (node :: nodes))
      with (("// " +:+ node_fileName node +:+ newline)
              :: node_code node :: printedChunks nodes).
    simpl. rewrite IH. lia.
  - induction nodes as [| first nodes IH]; intros i node Hnode; [discriminate |].
    change (printedChunks (first :: nodes))
      with (("// " +:+ node_fileName first +:+ newline)
              :: node_code first :: printedChunks nodes).
    destruct i as [| i].
    + injection Hnode as ->. split; reflexivity.
    + replace (2 * S i) with (S (S (2 * i))) by lia.
      replace (S (S (2 * i)) + 1) with (S (S (2 * i + 1))) by lia.
      exact (IH i node Hnode).
Qed.

Lemma print_mode_prints_every_node_witness :
  sampleNodes !! 1 = Some {| node_name := "FooQuery"; node_fileName := "FooQuery.ts";
                               node_code := "foo" |}
  ∧ printedChunks sampleNodes !! (2 * 1) = Some ("// FooQuery.ts" +:+ newline)
  ∧ printedChunks sampleNodes !! (2 * 1 + 1) = Some "foo".
Proof.
  split; [reflexivity |].
  exact (proj2 (proj2 (print_mode_prints_every_node sampleNodes occupiedWorld))
           1 _ eq_refl).
Defined.

(** X4: a run of [generate] with at least one requested name sends exactly
    one request, the introspection request, whatever comes back and whether
    the run ends normally or throws. *)
Theorem generate_sends_one_request
    (getIntrospectionQuery : string)
    (receiveSchema : Request → option DocumentNode)
    (prettier_format : string → option string)
    (argv : GenerateArgv) (w : World)
    (Hsome : argv_operations argv ≠ []) :
  requests
    (generateHandler getIntrospectionQuery receiveSchema prettier_format argv w).1
  = requests w ++ [introspectionRequest getIntrospectionQuery].
Proof.
  rewrite generateHandler_eq.
  destruct (argv_operations argv) as [| name names]; [contradiction |].
  destruct (receiveSchema (introspectionRequest getIntrospectionQuery))
    as [schema |]; [| reflexivity].
  destruct (findOperationsAndTypes schema) as [found |]; [| reflexivity].
  destruct (buildNodes prettier_format argv found.1 found.2) as [nodes |];
    [| reflexivity].
  apply emitNodes_requests.
Qed.

Lemma generate_sends_one_request_witness :
  requests
    (generateHandler "query IntrospectionQuery" (fun _ => None) Some
       {| argv_url := "https://api.example.com/graphql"; argv_type := mutation;
          argv_operations := ["now"]; argv_write := true |} occupiedWorld).1
  = [] ++ [introspectionRequest "query IntrospectionQuery"].
Proof.
  refine (generate_sends_one_request "query IntrospectionQuery" (fun _ => None) Some
            {| argv_url := "https://api.example.com/graphql"; argv_type := mutation;
               argv_operations := ["now"]; argv_write := true |} occupiedWorld _).
  discriminate.
Defined.

Lemma emitNodes_keeps_existing write nodes w (fileName content : string) :
  files w !! fileName = Some content →
  files (emitNodes write nodes w).1 !! fileName = Some content.
Proof.
  intros Hfile. rewrite emitNodes_eq.
  destruct write; [| exact Hfile].
  destruct (allAbsent nodes w) eqn:Habsent; [| exact Hfile].
  simpl. rewrite writtenFiles_other; [exact Hfile |].
  intros Hin. apply list_elem_of_fmap in Hin as (node & -> & Hnode).
  apply allAbsent_true in Habsent. rewrite Forall_forall in Habsent.
  rewrite (Habsent node Hnode) in Hfile. discriminate.
Qed.

(** X5: [generate] never changes or removes a file that exists: whatever the
    arguments, the mode and the outcome, a file of the working directory
    holds after the run the content it held before. Without [--write] the
    working directory is left exactly as it was. *)
Theorem generate_keeps_existing_files
    (getIntrospectionQuery : string)
    (receiveSchema : Request → option DocumentNode)
    (prettier_format : string → option string)
    (argv : GenerateArgv) (w : World) :
  (∀ (fileName content : string),
     files w !! fileName = Some content →
     files (generateHandler getIntrospectionQuery receiveSchema prettier_format argv w).1
       !! fileName = Some content)
  ∧ (argv_write argv = false →
     files (generateHandler getIntrospectionQuery receiveSchema prettier_format argv w).1
     = files w).
Proof.
  rewrite generateHandler_eq.
  destruct (argv_operations argv) as [| name names]; [now split |].
  destruct (receiveSchema (introspectionRequest getIntrospectionQuery))
    as [schema |]; [| now split].
  destruct (findOperationsAndTypes schema) as [found |]; [| now split].
  destruct (buildNodes prettier_format argv found.1 found.2) as [nodes |];
    [| now split].
  split.
  - intros fileName content Hfile. now apply emitNodes_keeps_existing.
  - intros ->. now rewrite emitNodes_eq.
Qed.

Lemma generate_keeps_existing_files_witness :
  files occupiedWorld !! "NowQuery.ts" = Some "kept"
  ∧ files
      (generateHandler "query IntrospectionQuery" (fun _ => Some nowSchema) Some
         {| argv_url := "http://localhost:25202/"; argv_type := query;
            argv_operations := ["now"]; argv_write := true |} occupiedWorld).1
      !! "NowQuery.ts" = Some "kept".
Proof.
  split; [reflexivity |].
  exact (proj1 (generate_keeps_existing_files "query IntrospectionQuery"
                  (fun _ => Some nowSchema) Some
                  {| argv_url := "http://localhost:25202/"; argv_type := query;
                     argv_operations := ["now"]; argv_write := true |} occupiedWorld)
           "NowQuery.ts" "kept" eq_refl).
Defined.

(** X6: when the formatter rejects the text of one selected operation, the
    run throws before anything is printed or written, also for the selected
    operations whose text it would accept: the nodes are all built before
    the first is emitted. *)
Theorem formatter_rejection_aborts
    (getIntrospectionQuery : string)
    (receiveSchema : Request → option DocumentNode)
    (prettier_format : string → option string)
    (argv : GenerateArgv) (w : World)
    (schema : DocumentNode) (operations : list Operation) (types : TypeCatalog)
    (operation : Operation)
    (Hfetch : receiveSchema (introspectionRequest getIntrospectionQuery) = Some schema)
    (Hfound : findOperationsAndTypes schema = Some (operations, types))
    (Hin : operation ∈ operations)
    (Hkind : op_kind operation = argv_type argv)
    (Hname : op_name operation ∈ argv_operations argv)
    (Hrejected :
       generateCodeForOperation prettier_format operation types
         defaultMaxFieldsSelectionDepth = None) :
  generateHandler getIntrospectionQuery receiveSchema prettier_format argv w
  = (afterRequest getIntrospectionQuery w, None).
Proof.
  rewrite generateHandler_eq.
  destruct (argv_operations argv) as [| name names] eqn:Hnames.
  { now apply not_elem_of_nil in Hname. }
  rewrite Hfetch, Hfound.
  assert (buildNodes prettier_format argv (operations, types).1 (operations, types).2
          = None) as ->; [| reflexivity].
  unfold buildNodes. apply mapM_None. apply Exists_exists. exists operation. split.
  - apply list_elem_of_In, filter_In. split; [now apply list_elem_of_In |].
    rewrite Hnames. apply andb_true_iff.
    split; apply bool_decide_eq_true; assumption.
  - simpl. now rewrite Hrejected.
Qed.

Lemma formatter_rejection_aborts_witness :
  generateHandler "query IntrospectionQuery" (fun _ => Some nowSchema) (fun _ => None)
    {| argv_url := "http://localhost:25202/"; argv_type := query;
       argv_operations := ["now"]; argv_write := false |} emptyWorld
  = (afterRequest "query IntrospectionQuery" emptyWorld, None).
Proof.
  refine (formatter_rejection_aborts "query IntrospectionQuery"
            (fun _ => Some nowSchema) (fun _ => None)
            {| argv_url := "http://localhost:25202/"; argv_type := query;
               argv_operations := ["now"]; argv_write := false |} emptyWorld
            nowSchema [nowOperation] ∅ nowOperation eq_refl eq_refl _ eq_refl _ eq_refl).
  - apply list_elem_of_here.
  - apply list_elem_of_here.
Defined.

(** X7: when no operation of the kind asked for bears one of the requested
    names, the run ends normally with nothing printed and no file written, in
    print mode and in write mode alike; only the request was sent. *)
Theorem unknown_operation_yields_nothing
    (getIntrospectionQuery : string)
    (receiveSchema : Request → option DocumentNode)
    (prettier_format : string → option string)
    (argv : GenerateArgv) (w : World)
    (schema : DocumentNode) (operations : list Operation) (types : TypeCatalog)
    (Hsome : argv_operations argv ≠ [])
    (Hfetch : receiveSchema (introspectionRequest getIntrospectionQuery) = Some schema)
    (Hfound : findOperationsAndTypes schema = Some (operations, types))
    (Hunknown :
       ∀ operation, operation ∈ operations →
         op_kind operation = argv_type argv →
         op_name operation ∉ argv_operations argv) :
  generateHandler getIntrospectionQuery receiveSchema prettier_format argv w
  = (afterRequest getIntrospectionQuery w, Some tt).
Proof.
  rewrite generateHandler_eq.
  destruct (argv_operations argv) as [| name names] eqn:Hnames; [contradiction |].
  rewrite Hfetch, Hfound.
  assert (buildNodes prettier_format argv (operations, types).1 (operations, types).2
          = Some []) as ->.
  { unfold buildNodes.
    assert (List.filter
              (fun operation =>
                 bool_decide (op_kind operation = argv_type argv)
                 && bool_decide (op_name operation ∈ argv_operations argv))
              (operations, types).1 = []) as ->; [| reflexivity].
    simpl. rewrite Hnames.
    clear -Hunknown. induction operations as [| operation operations IH];
      [reflexivity |].
    simpl.
    destruct (bool_decide (op_kind operation = argv_type argv)
              && bool_decide (op_name operation ∈ name :: names)) eqn:Hmatch.
    - apply andb_true_iff in Hmatch as [Hkind Hname].
      apply bool_decide_eq_true in Hkind, Hname.
      exfalso. apply (Hunknown operation); [apply list_elem_of_here | | ]; assumption.
    - apply IH. intros operation' Hin. apply Hunknown. now apply list_elem_of_further. }
  cbv beta iota. rewrite emitNodes_eq.
  destruct (argv_write argv); simpl.
  - unfold afterRequest. now rewrite app_nil_r.
  - unfold afterRequest. now rewrite app_nil_r.
Qed.

Lemma unknown_operation_yields_nothing_witness :
  generateHandler "query IntrospectionQuery" (fun _ => Some nowSchema) Some
    {| argv_url := "http://localhost:25202/"; argv_type := mutation;
       argv_operations := ["now"]; argv_write := true |} emptyWorld
  = (afterRequest "query IntrospectionQuery" emptyWorld, Some tt).
Proof.
  refine (unknown_operation_yields_nothing "query IntrospectionQuery"
            (fun _ => Some nowSchema) Some
            {| argv_url := "http://localhost:25202/"; argv_type := mutation;
               argv_operations := ["now"]; argv_write := true |} emptyWorld
            nowSchema [nowOperation] ∅ _ eq_refl eq_refl _).
  - discriminate.
  - intros operation Hin Hkind. apply list_elem_of_singleton in Hin. subst operation.
    discriminate Hkind.
Defined.

(** X8: a write run that wrote its files cannot be repeated: run again on
    the world it left, with the same nodes, it finds its targets and writes
    and prints nothing. *)
Theorem second_write_run_is_noop (nodes : list Node) (w : World)
    (Hnodes : nodes ≠ [])
    (Habsent : Forall (fun node => files w !! node_fileName node = None) nodes) :
  emitNodes true nodes (emitNodes true nodes w).1
  = ((emitNodes true nodes w).1, Some tt).
Proof.
  rewrite (emitNodes_eq true nodes w).
  apply allAbsent_true in Habsent. rewrite Habsent. cbn [fst].
  rewrite emitNodes_eq.
  match goal with
  | |- (if allAbsent nodes ?w' then _ else _) = _ =>
      assert (allAbsent nodes w' = false) as ->; [| reflexivity]
  end.
  apply not_true_is_false. intros Hall. apply allAbsent_true in Hall.
  destruct nodes as [| node nodes]; [contradiction |].
  apply Forall_cons in Hall as [Hnode _]. cbn [files] in Hnode.
  destruct (writtenFiles_present (node :: nodes) (files w) node) as [content Hcontent].
  { apply list_elem_of_here. }
  rewrite Hcontent in Hnode. discriminate.
Qed.

Lemma second_write_run_is_noop_witness :
  Forall (fun node => files emptyWorld !! node_fileName node = None) sampleNodes
  ∧ emitNodes true sampleNodes (emitNodes true sampleNodes emptyWorld).1
    = ((emitNodes true sampleNodes emptyWorld).1, Some tt).
Proof.
  assert (Forall (fun node => files emptyWorld !! node_fileName node = None) sampleNodes)
    as Habsent by (repeat constructor).
  split; [exact Habsent |].
  refine (second_write_run_is_noop sampleNodes emptyWorld _ Habsent).
  discriminate.
Defined.

(** X9: the requested names act as a set: two lists with the same members
    (in any order, with any repetition) select the same operations and build
    the same nodes, in the order of the operations in the document. *)
Theorem requested_names_are_a_set
    (prettier_format : string → option string)
    (url url' : string) (type : OperationKind) (write write' : bool)
    (names names' : list string)
    (operations : list Operation) (types : TypeCatalog)
    (Hsame : ∀ name : string, name ∈ names ↔ name ∈ names') :
  buildNodes prettier_format
    {| argv_url := url; argv_type := type; argv_operations := names;
       argv_write := write |} operations types
  = buildNodes prettier_format
      {| argv_url := url'; argv_type := type; argv_operations := names';
         argv_write := write' |} operations types.
Proof.
  unfold buildNodes. f_equal. apply filter_ext. intros operation. simpl.
  f_equal. apply bool_decide_ext, Hsame.
Qed.

Lemma requested_names_are_a_set_witness :
  buildNodes Some
    {| argv_url := "a"; argv_type := query; argv_operations := ["foo"; "now"; "foo"];
       argv_write := false |} [nowOperation; fooOperation] fooCatalog
  = buildNodes Some
      {| argv_url := "b"; argv_type := query; argv_operations := ["now"; "foo"];
         argv_write := true |} [nowOperation; fooOperation] fooCatalog.
Proof.
  refine (requested_names_are_a_set Some "a" "b" query false true
            ["foo"; "now"; "foo"] ["now"; "foo"] [nowOperation; fooOperation]
            fooCatalog _).
  intros name. rewrite !elem_of_cons, !elem_of_nil. tauto.
Defined.



(* ===================================================================== *)
(** ** Further properties of findOperationsAndTypes                       *)
(* ===================================================================== *)

Lemma visitDefinition_catalog node operations types operations' types' :
  visitDefinition (operations, types) node = Some (operations', types') →
  types' = catalogStep types node.
Proof.
  destruct node as [name fields | kind name]; simpl; [| congruence].
  destruct (bool_decide (name = "Mutation") || bool_decide (name = "Query")).
  - destruct fields; [| discriminate]. congruence.
  - congruence.
Qed.

Lemma catalogStep_lookup types node (key : string) :
  catalogStep types node !! key
  = match node with
    | ObjectTypeDefinition name fields =>
        if decide (name = key ∧ name ≠ "Mutation" ∧ name ≠ "Query")
        then Some (default [] fields)
        else types !! key
    | OtherDefinition _ _ => types !! key
    end.
Proof.
  destruct node as [name fields | kind name]; [| reflexivity]. simpl.
  destruct (decide (name = "Mutation")) as [-> | HM].
  { simpl. rewrite decide_False by tauto. reflexivity. }
  destruct (decide (name = "Query")) as [-> | HQ].
  { simpl. rewrite decide_False by tauto. reflexivity. }
  rewrite !bool_decide_eq_false_2 by assumption. simpl.
  destruct (decide (name = key)) as [-> | Hne].
  - rewrite lookup_insert_eq, decide_True by tauto. reflexivity.
  - rewrite lookup_insert_ne, decide_False by tauto. reflexivity.
Qed.

Lemma visit_catalog_keys schema : ∀ operations types operations' types',
  visit schema (operations, types) = Some (operations', types') →
  ∀ key : string,
    is_Some (types' !! key)
    ↔ is_Some (types !! key)
      ∨ (key ≠ "Mutation" ∧ key ≠ "Query"
         ∧ ∃ fields, ObjectTypeDefinition key fields ∈ schema).
Proof.
  induction schema as [| node schema IH];
    intros operations types operations' types' Hvisit key.
  - injection Hvisit as <- <-. split; [auto |].
    intros [H | (_ & _ & fields & Hin)]; [exact H |].
    now apply not_elem_of_nil in Hin.
  - simpl in Hvisit.
    destruct (visitDefinition (operations, types) node) as [[operations1 types1] |]
      eqn:Hstep; [| discriminate].
    apply visitDefinition_catalog in Hstep. subst types1.
    rewrite (IH _ _ _ _ Hvisit key), catalogStep_lookup.
    destruct node as [name fields | kind name].
    + destruct (decide (name = key ∧ name ≠ "Mutation" ∧ name ≠ "Query"))
        as [(-> & HM & HQ) | Hnot].
      * split; [| intros _; left; eauto].
        intros _. right. repeat split; try assumption.
        exists fields. apply list_elem_of_here.
      * split.
        -- intros [H | (HM & HQ & fields' & Hin)]; [now left |].
           right. repeat split; try assumption.
           exists fields'. now apply list_elem_of_further.
        -- intros [H | (HM & HQ & fields' & Hin)]; [now left |].
           apply elem_of_cons in Hin as [Heq | Hin].
           ++ injection Heq as <- <-. tauto.
           ++ right. eauto.
    + split.
      * intros [H | (HM & HQ & fields' & Hin)]; [now left |].
        right. repeat split; try assumption.
        exists fields'. now apply list_elem_of_further.
      * intros [H | (HM & HQ & fields' & Hin)]; [now left |].
        apply elem_of_cons in Hin as [Heq | Hin]; [discriminate Heq |].
        right. eauto.
Qed.

Lemma visit_catalog_untouched schema (key : string) :
  ∀ operations types operations' types',
    visit schema (operations, types) = Some (operations', types') →
    (∀ fields, ObjectTypeDefinition key fields ∉ schema) →
    types' !! key = types !! key.
Proof.
  induction schema as [| node schema IH];
    intros operations types operations' types' Hvisit Hfresh.
  - now injection Hvisit as <- <-.
  - simpl in Hvisit.
    destruct (visitDefinition (operations, types) node) as [[operations1 types1] |]
      eqn:Hstep; [| discriminate].
    apply visitDefinition_catalog in Hstep. subst types1.
    rewrite (IH _ _ _ _ Hvisit).
    + rewrite catalogStep_lookup. destruct node as [name fields | kind name];
        [| reflexivity].
      apply decide_False. intros (-> & _). apply (Hfresh fields), list_elem_of_here.
    + intros fields Hin. apply (Hfresh fields). now apply list_elem_of_further.
Qed.

(** X11: the catalog never has an entry under Query or Mutation, and its
    keys are exactly the names, other than these two, of the object-type
    definitions of the document; the other kinds of definition (scalars,
    enums, interfaces, unions, inputs) give no key, so a field of such a
    type is selected as a leaf. *)
Theorem catalog_keys
    (schema : DocumentNode) (operations : list Operation) (types : TypeCatalog)
    (Hfound : findOperationsAndTypes schema = Some (operations, types)) :
  types !! "Query" = None
  ∧ types !! "Mutation" = None
  ∧ ∀ name : string,
      is_Some (types !! name)
      ↔ name ≠ "Mutation" ∧ name ≠ "Query"
        ∧ ∃ fields, ObjectTypeDefinition name fields ∈ schema.
Proof.
  pose proof (visit_catalog_keys schema [] ∅ operations types Hfound) as Hkeys.
  assert (∀ name : string,
            is_Some (types !! name)
            ↔ name ≠ "Mutation" ∧ name ≠ "Query"
              ∧ ∃ fields, ObjectTypeDefinition name fields ∈ schema) as Hkeys'.
  { intros name. rewrite Hkeys. rewrite lookup_empty. split; [| auto].
    intros [H | H]; [| exact H]. now apply is_Some_None in H. }
  split; [| split; [| exact Hkeys']].
  - apply eq_None_not_Some. rewrite Hkeys'. tauto.
  - apply eq_None_not_Some. rewrite Hkeys'. tauto.
Qed.

Lemma catalog_keys_witness :
  findOperationsAndTypes twiceQuerySchema = Some (twiceQuerySchema ≫= contributedOperations,
                                                  {["Foo" := []]})
  ∧ ({["Foo" := []]} : TypeCatalog) !! "Query" = None.
Proof.
  assert (findOperationsAndTypes twiceQuerySchema
          = Some (twiceQuerySchema ≫= contributedOperations, {["Foo" := []]}))
    as Hfound by reflexivity.
  split; [exact Hfound |].
  exact (proj1 (catalog_keys twiceQuerySchema _ _ Hfound)).
Defined.

(** X12: among several object-type definitions of one name the last one
    wins: the catalog entry of a name is the field list of the last
    definition of that name in the document (the empty list when that
    definition has no field array), whatever the earlier ones declared. *)
Theorem catalog_last_definition_wins
    (before after : DocumentNode) (name : string)
    (fields : option (list FieldDefinitionNode))
    (operations : list Operation) (types : TypeCatalog)
    (Hfound :
       findOperationsAndTypes (before ++ ObjectTypeDefinition name fields :: after)
       = Some (operations, types))
    (Hname : name ≠ "Mutation" ∧ name ≠ "Query")
    (Hlast : ∀ fields', ObjectTypeDefinition name fields' ∉ after) :
  types !! name = Some (default [] fields).
Proof.
  unfold findOperationsAndTypes in Hfound. rewrite visit_app in Hfound.
  destruct (visit before ([], ∅)) as [[operations1 types1] |]; [| discriminate].
  cbn -[visitObjectTypeDefinition] in Hfound.
  destruct (visitObjectTypeDefinition name fields (operations1, types1))
    as [[operations2 types2] |] eqn:Hstep; [| discriminate].
  rewrite (visit_catalog_untouched after name _ _ _ _ Hfound Hlast).
  apply (visitDefinition_catalog (ObjectTypeDefinition name fields)) in Hstep.
  subst types2. rewrite catalogStep_lookup. apply decide_True. tauto.
Qed.

Lemma catalog_last_definition_wins_witness :
  findOperationsAndTypes
    ([ObjectTypeDefinition "Foo" (Some fooFields)]
     ++ ObjectTypeDefinition "Foo" None :: [ObjectTypeDefinition "Bar" (Some barFields)])
  = Some ([], <["Bar" := barFields]> {["Foo" := []]})
  ∧ (<["Bar" := barFields]> {["Foo" := []]} : TypeCatalog) !! "Foo" = Some [].
Proof.
  assert (findOperationsAndTypes
            ([ObjectTypeDefinition "Foo" (Some fooFields)]
             ++ ObjectTypeDefinition "Foo" None
                  :: [ObjectTypeDefinition "Bar" (Some barFields)])
          = Some ([], <["Bar" := barFields]> {["Foo" := []]})) as Hfound.
  { reflexivity. }
  split; [exact Hfound |].
  refine (catalog_last_definition_wins
            [ObjectTypeDefinition "Foo" (Some fooFields)]
            [ObjectTypeDefinition "Bar" (Some barFields)] "Foo" None
            _ _ Hfound _ _).
  - split; discriminate.
  - intros fields' Hin. apply list_elem_of_singleton in Hin. discriminate.
Defined.

Lemma visit_throws schema :
  rootFieldsPresent schema = false → ∀ acc, visit schema acc = None.
Proof.
  induction schema as [| node schema IH]; intros Hroot acc; [discriminate |].
  simpl in Hroot. apply andb_false_iff in Hroot.
  cbn -[visitObjectTypeDefinition].
  destruct Hroot as [Hnode | Hrest].
  - destruct node as [name [fs |] | kind name]; try discriminate.
    apply negb_false_iff in Hnode. destruct acc as [operations types].
    unfold visitDefinition, visitObjectTypeDefinition. now rewrite Hnode.
  - destruct (visitDefinition acc node); [now apply IH | reflexivity].
Qed.

Lemma rootFieldsPresent_false schema :
  rootFieldsPresent schema = false
  ↔ ∃ name : string,
      (name = "Mutation" ∨ name = "Query") ∧ ObjectTypeDefinition name None ∈ schema.
Proof.
  induction schema as [| node schema IH]; simpl.
  - split; [discriminate |]. intros (name & _ & Hin). now apply not_elem_of_nil in Hin.
  - rewrite andb_false_iff, IH. split.
    + intros [Hnode | (name & Hname & Hin)].
      * destruct node as [name [fs |] | kind name]; try discriminate.
        apply negb_false_iff, orb_true_iff in Hnode.
        exists name. split; [| apply list_elem_of_here].
        destruct Hnode as [H | H]; apply bool_decide_eq_true in H; auto.
      * exists name. split; [exact Hname | now apply list_elem_of_further].
    + intros (name & Hname & Hin). apply elem_of_cons in Hin as [<- | Hin].
      * left. apply negb_false_iff, orb_true_iff.
        destruct Hname as [-> | ->]; [left | right]; reflexivity.
      * right. eauto.
Qed.

(** X13: [findOperationsAndTypes] throws exactly when the document has a
    definition named Query or Mutation whose field array is undefined (the
    [node.fields.forEach] of the root branch is not guarded); on every other
    document it returns, also when there is no Query and no Mutation. *)
Theorem findOperationsAndTypes_throws_iff (schema : DocumentNode) :
  findOperationsAndTypes schema = None
  ↔ ∃ name : string,
      (name = "Mutation" ∨ name = "Query") ∧ ObjectTypeDefinition name None ∈ schema.
Proof.
  rewrite <- rootFieldsPresent_false. split.
  - intros Hnone. destruct (rootFieldsPresent schema) eqn:Hroot; [| reflexivity].
    destruct (visit_operations schema [] ∅ Hroot) as [types Hsome].
    unfold findOperationsAndTypes in Hnone. rewrite Hsome in Hnone. discriminate.
  - intros Hroot. now apply visit_throws.
Qed.

(* ===================================================================== *)
(** ** Properties of upperFirst and further properties of getTypeName     *)
(* ===================================================================== *)









(* ===================================================================== *)
(** ** Further properties of generateCodeForOperation                     *)
(* ===================================================================== *)

Lemma generateCodeTokens_before types maxFieldsSelectionDepth operation :
  generateCodeTokens types maxFieldsSelectionDepth operation
  = Some
      (tokensBeforeSelection operation
       ++ match types !! bareName (field_type (op_astValue operation)) with
          | Some fields =>
              ["{"] ++ (fields ≫= selection types maxFieldsSelectionDepth) ++ ["}"]
          | None => []
          end
       ++ ["}"; "`"; ""]).
Proof.
  rewrite generateCodeTokens_eq, getTypeName_bare. unfold tokensBeforeSelection.
  f_equal. rewrite <- !app_assoc. reflexivity.
Qed.

Lemma selection_head types remaining field :
  ∃ below, selection types remaining field = field_name field :: below.
Proof.
  rewrite selection_unfold.
  destruct (types !! getTypeName (field_type field) false); eauto.
Qed.

Lemma selection_flat types remaining field :
  remaining = 0 ∨ types !! bareName (field_type field) = None →
  selection types remaining field = [field_name field].
Proof.
  rewrite selection_unfold, getTypeName_bare. intros [-> | ->]; [| reflexivity].
  now destruct (types !! bareName (field_type field)).
Qed.

(** X16: when the maximum depth is 0, or when no field of the return type
    has a type of the catalog, the block of the root field holds exactly
    the names of the fields of the return type, in declaration order, with
    no nested block. In the second case the depth plays no part. *)
Theorem flat_selection
    (types : TypeCatalog) (maxFieldsSelectionDepth : nat) (operation : Operation)
    (fields : list FieldDefinitionNode)
    (Hcatalog : types !! bareName (field_type (op_astValue operation)) = Some fields)
    (Hflat :
       maxFieldsSelectionDepth = 0
       ∨ Forall (fun field => types !! bareName (field_type field) = None) fields) :
  generateCodeTokens types maxFieldsSelectionDepth operation
  = Some (tokensBeforeSelection operation
          ++ ["{"] ++ map field_name fields ++ ["}"; "}"; "`"; ""]).
Proof.
  rewrite generateCodeTokens_before, Hcatalog.
  assert (fields ≫= selection types maxFieldsSelectionDepth = map field_name fields)
    as ->.
  { clear Hcatalog. induction fields as [| field fields IH]; [reflexivity |].
    change ((field :: fields) ≫= selection types maxFieldsSelectionDepth)
      with (selection types maxFieldsSelectionDepth field
            ++ (fields ≫= selection types maxFieldsSelectionDepth)).
    rewrite selection_flat, IH; [reflexivity | |].
    - destruct Hflat as [-> | Hleaves]; [now left |].
      right. now apply Forall_cons in Hleaves as [_ Hleaves].
    - destruct Hflat as [-> | Hleaves]; [now left |].
      right. now apply Forall_cons in Hleaves as [Hleaf _]. }
  f_equal. rewrite <- !app_assoc. reflexivity.
Qed.

Lemma flat_selection_witness :
  generateCodeTokens fooCatalog 0 fooOperation
  = Some (tokensBeforeSelection fooOperation
          ++ ["{"] ++ ["id"; "bar"; "self"] ++ ["}"; "}"; "`"; ""]).
Proof.
  exact (flat_selection fooCatalog 0 fooOperation fooFields eq_refl (or_introl eq_refl)).
Defined.

Lemma selection_tokens_declared types remaining : ∀ field token,
  token ∈ selection types remaining field →
  token = field_name field
  ∨ token = "{" ∨ token = "}"
  ∨ ∃ typeName items item,
      types !! typeName = Some items ∧ item ∈ items ∧ token = field_name item.
Proof.
  induction remaining as [| remaining IH]; intros field token;
    rewrite selection_unfold;
    destruct (types !! getTypeName (field_type field) false) as [items |] eqn:Hitems.
  - intros Hin. apply list_elem_of_singleton in Hin. auto.
  - intros Hin. apply list_elem_of_singleton in Hin. auto.
  - intros Hin. apply elem_of_cons in Hin as [-> | Hin]; [auto |].
    apply elem_of_cons in Hin as [-> | Hin]; [auto |].
    apply elem_of_app in Hin as [Hin | Hin].
    + apply list_elem_of_bind in Hin as (item & Htoken & Hitem).
      destruct (IH item token Htoken) as [-> | [-> | [-> | Hdeclared]]].
      * right. right. right.
        exists (getTypeName (field_type field) false), items, item. auto.
      * auto.
      * auto.
      * auto.
    + apply list_elem_of_singleton in Hin. auto.
  - intros Hin. apply list_elem_of_singleton in Hin. auto.
Qed.

(** X17: when the return type is in the catalog, the block of the root
    field names every field of the return type, in declaration order
    (other tokens may come in between), and every token in it is a brace or
    the name of a field that the catalog declares: no field is left out and
    nothing is selected that the schema does not have. *)
Theorem selection_covers_declared_fields
    (types : TypeCatalog) (maxFieldsSelectionDepth : nat) (operation : Operation)
    (fields : list FieldDefinitionNode)
    (Hcatalog : types !! bareName (field_type (op_astValue operation)) = Some fields) :
  ∃ inner,
    generateCodeTokens types maxFieldsSelectionDepth operation
    = Some (tokensBeforeSelection operation ++ ["{"] ++ inner ++ ["}"; "}"; "`"; ""])
    ∧ map field_name fields `sublist_of` inner
    ∧ ∀ token, token ∈ inner →
        token = "{" ∨ token = "}"
        ∨ ∃ typeName items item,
            types !! typeName = Some items ∧ item ∈ items ∧ token = field_name item.
Proof.
  exists (fields ≫= selection types maxFieldsSelectionDepth). split; [| split].
  - rewrite generateCodeTokens_before, Hcatalog. f_equal.
    rewrite <- !app_assoc. reflexivity.
  - clear Hcatalog. induction fields as [| field fields IH]; [constructor |].
    change ((field :: fields) ≫= selection types maxFieldsSelectionDepth)
      with (selection types maxFieldsSelectionDepth field
            ++ (fields ≫= selection types maxFieldsSelectionDepth)).
    destruct (selection_head types maxFieldsSelectionDepth field) as [below ->].
    simpl. apply sublist_skip. now apply sublist_inserts_l.
  - intros token Hin. apply list_elem_of_bind in Hin as (field & Htoken & Hfield).
    destruct (selection_tokens_declared _ _ _ _ Htoken) as [-> | [-> | [-> | H]]].
    + right. right.
      exists (bareName (field_type (op_astValue operation))), fields, field. auto.
    + auto.
    + auto.
    + auto.
Qed.

Lemma selection_covers_declared_fields_witness :
  fooCatalog !! "Foo" = Some fooFields
  ∧ ∃ inner,
      generateCodeTokens fooCatalog 1 fooOperation
      = Some (tokensBeforeSelection fooOperation ++ ["{"] ++ inner ++ ["}"; "}"; "`"; ""])
      ∧ ["id"; "bar"; "self"] `sublist_of` inner
      ∧ ∀ token, token ∈ inner →
          token = "{" ∨ token = "}"
          ∨ ∃ typeName items item,
              fooCatalog !! typeName = Some items ∧ item ∈ items
              ∧ token = field_name item.
Proof.
  split; [reflexivity |].
  exact (selection_covers_declared_fields fooCatalog 1 fooOperation fooFields eq_refl).
Defined.

Lemma closeLevel_app a : ∀ b cur,
  closeLevel cur (a ++ b) = closeLevel cur a ≫= fun level => closeLevel level b.
Proof.
  induction a as [| t a IH]; intros b cur; simpl; [reflexivity |].
  repeat case_decide; [apply IH | | apply IH].
  destruct cur; [reflexivity | apply IH].
Qed.

Lemma closeLevel_plain_prefix prefix : ∀ cur rest,
  Forall (fun token => isBrace token = false) prefix →
  closeLevel cur (prefix ++ rest) = closeLevel cur rest.
Proof.
  induction prefix as [| token prefix IH]; intros cur rest Hplain; [reflexivity |].
  apply Forall_cons in Hplain as [Htoken Hprefix].
  unfold isBrace in Htoken. apply orb_false_iff in Htoken as [H1 H2].
  apply bool_decide_eq_false in H1, H2. simpl.
  rewrite !decide_False by assumption. now apply IH.
Qed.

Lemma closeLevel_plain_cons token cur rest :
  isBrace token = false → closeLevel cur (token :: rest) = closeLevel cur rest.
Proof.
  intros Hplain. apply (closeLevel_plain_prefix [token] cur rest). now repeat constructor.
Qed.

Lemma closeLevel_root name rest :
  isBrace name = false → closeLevel 0 (["{"; name] ++ rest) = closeLevel 1 rest.
Proof.
  intros Hplain. change (closeLevel 1 (name :: rest) = closeLevel 1 rest).
  now apply closeLevel_plain_cons.
Qed.

Lemma closeLevel_bind {A : Type} (g : A → list string) (items : list A) :
  Forall (fun item => ∀ cur, closeLevel cur (g item) = Some cur) items →
  ∀ cur, closeLevel cur (items ≫= g) = Some cur.
Proof.
  induction 1 as [| item items Hitem _ IH]; intros cur; [reflexivity |].
  change ((item :: items) ≫= g) with (g item ++ (items ≫= g)).
  rewrite closeLevel_app, Hitem. simpl. apply IH.
Qed.

Lemma selection_closeLevel types (Hnames : braceFreeNames types) remaining :
  ∀ field cur,
    isBrace (field_name field) = false →
    closeLevel cur (selection types remaining field) = Some cur.
Proof.
  induction remaining as [| remaining IH]; intros field cur Hplain;
    rewrite selection_unfold;
    destruct (types !! getTypeName (field_type field) false) as [items |] eqn:Hitems.
  - now rewrite closeLevel_plain_cons.
  - now rewrite closeLevel_plain_cons.
  - rewrite closeLevel_plain_cons by assumption.
    change (closeLevel cur ("{" :: (items ≫= selection types remaining) ++ ["}"]))
      with (closeLevel (S cur) ((items ≫= selection types remaining) ++ ["}"])).
    rewrite closeLevel_app, closeLevel_bind; [reflexivity |].
    apply (map_Forall_lookup_1 _ _ _ _ Hnames) in Hitems.
    eapply Forall_impl; [exact Hitems |]. intros item Hitem cur'. now apply IH.
  - now rewrite closeLevel_plain_cons.
Qed.

(** X18: the array of an operation is well bracketed: read from the left,
    its braces never close a block that was not opened and every block
    opened is closed at the end. (Names are taken not to be brace tokens.) *)
Theorem output_is_well_bracketed
    (types : TypeCatalog) (maxFieldsSelectionDepth : nat) (operation : Operation)
    (Hnames : braceFreeNames types)
    (Hname : isBrace (op_name operation) = false) :
  ∃ tokens,
    generateCodeTokens types maxFieldsSelectionDepth operation = Some tokens
    ∧ closeLevel 0 tokens = Some 0.
Proof.
  eexists. split; [apply generateCodeTokens_eq |].
  rewrite (closeLevel_plain_prefix
             [import_line; ""; "export default gql`";
              kind_text (op_kind operation) +:+ " " +:+ upperFirst (op_name operation)]).
  2: { repeat constructor. apply header_plain. }
  rewrite closeLevel_plain_prefix.
  2: { destruct (hasArguments operation) eqn:Hargs; [| constructor].
       repeat constructor. apply declarations_plain. now apply hasArguments_true. }
  rewrite closeLevel_root by assumption.
  rewrite closeLevel_plain_prefix.
  2: { destruct (hasArguments operation) eqn:Hargs; [| constructor].
       repeat constructor. apply bindings_plain. now apply hasArguments_true. }
  rewrite closeLevel_app.
  destruct (types !! getTypeName (field_type (op_astValue operation)) false)
    as [fields |] eqn:Hfields; [| reflexivity].
  change (closeLevel 1 ("{" :: (fields ≫= selection types maxFieldsSelectionDepth)
                          ++ ["}"]))
    with (closeLevel 2 ((fields ≫= selection types maxFieldsSelectionDepth) ++ ["}"])).
  rewrite closeLevel_app, closeLevel_bind; [reflexivity |].
  apply (map_Forall_lookup_1 _ _ _ _ Hnames) in Hfields.
  eapply Forall_impl; [exact Hfields |].
  intros item Hitem cur. now apply selection_closeLevel.
Qed.

Lemma output_is_well_bracketed_witness :
  braceFreeNames fooCatalog
  ∧ ∃ tokens,
      generateCodeTokens fooCatalog 2 fooOperation = Some tokens
      ∧ closeLevel 0 tokens = Some 0.
Proof.
  split; [exact fooCatalog_braceFreeNames |].
  exact (output_is_well_bracketed fooCatalog 2 fooOperation
           fooCatalog_braceFreeNames eq_refl).
Defined.

Lemma selection_monotone types remaining : ∀ remaining' field,
  remaining ≤ remaining' →
  selection types remaining field `sublist_of` selection types remaining' field.
Proof.
  induction remaining as [| remaining IH]; intros remaining' field Hle;
    rewrite (selection_unfold types remaining'), selection_unfold;
    destruct (types !! getTypeName (field_type field) false) as [items |];
    try reflexivity.
  - apply sublist_skip, sublist_nil_l.
  - destruct remaining' as [| remaining']; [lia |].
    do 2 apply sublist_skip. apply sublist_app; [| reflexivity].
    induction items as [| item items IHitems]; [reflexivity |].
    change ((item :: items) ≫= selection types remaining)
      with (selection types remaining item ++ (items ≫= selection types remaining)).
    change ((item :: items) ≫= selection types remaining')
      with (selection types remaining' item ++ (items ≫= selection types remaining')).
    apply sublist_app; [apply IH; lia | exact IHitems].
Qed.

(** X19: raising the maximum depth only adds to the selection: the array
    generated with a smaller maximum is obtained from the array generated
    with a larger one by leaving tokens out, so every field selected at the
    smaller depth is still selected, in the same order. *)
Theorem deeper_selection_extends
    (types : TypeCatalog) (smaller larger : nat) (operation : Operation)
    (Hle : smaller ≤ larger) :
  ∃ tokens tokens',
    generateCodeTokens types smaller operation = Some tokens
    ∧ generateCodeTokens types larger operation = Some tokens'
    ∧ tokens `sublist_of` tokens'.
Proof.
  eexists. eexists. split; [apply generateCodeTokens_before |].
  split; [apply generateCodeTokens_before |].
  apply sublist_app; [reflexivity |]. apply sublist_app; [| reflexivity].
  destruct (types !! bareName (field_type (op_astValue operation))) as [fields |];
    [| reflexivity].
  apply sublist_app; [reflexivity |]. apply sublist_app; [| reflexivity].
  induction fields as [| field fields IH]; [reflexivity |].
  change ((field :: fields) ≫= selection types smaller)
    with (selection types smaller field ++ (fields ≫= selection types smaller)).
  change ((field :: fields) ≫= selection types larger)
    with (selection types larger field ++ (fields ≫= selection types larger)).
  apply sublist_app; [now apply selection_monotone | exact IH].
Qed.

Lemma deeper_selection_extends_witness :
  ∃ tokens tokens',
    generateCodeTokens fooCatalog 0 fooOperation = Some tokens
    ∧ generateCodeTokens fooCatalog 2 fooOperation = Some tokens'
    ∧ tokens `sublist_of` tokens'.
Proof.
  exact (deeper_selection_extends fooCatalog 0 2 fooOperation (Nat.le_0_l 2)).
Defined.

Lemma string_append_cons (c : ascii) (a b : string) :
  String c a +:+ b = String c (a +:+ b).
Proof. reflexivity. Qed.

Lemma string_append_inj_r (s : string) : ∀ a b : string, a +:+ s = b +:+ s → a = b.
Proof.
  induction a as [| x a IH]; intros [| y b] Heq.
  - reflexivity.
  - apply (f_equal String.length) in Heq.
    rewrite !string_length_append in Heq. simpl in Heq. lia.
  - apply (f_equal String.length) in Heq.
    rewrite !string_length_append in Heq. simpl in Heq. lia.
  - rewrite !string_append_cons in Heq. injection Heq as -> Heq.
    f_equal. now apply IH.
Qed.

Lemma string_append_suffix (s1 s2 : string) : ∀ a b : string,
  a +:+ s1 = b +:+ s2 → String.length s1 ≤ String.length s2 →
  ∃ p, s2 = p +:+ s1.
Proof.
  induction a as [| x a IH]; intros [| y b] Heq Hlen.
  - exists "". symmetry. exact Heq.
  - exfalso. apply (f_equal String.length) in Heq.
    rewrite !string_length_append in Heq. simpl in Heq. lia.
  - exists (String x a). symmetry. exact Heq.
  - rewrite !string_append_cons in Heq. injection Heq as _ Heq.
    now apply (IH b).
Qed.

Lemma query_mutation_suffix (a b : string) : a +:+ "Query" ≠ b +:+ "Mutation".
Proof.
  intros Heq.
  destruct (string_append_suffix "Query" "Mutation" a b Heq) as [p Hp]; [simpl; lia |].
  assert (String.length p = 3) as Hlen.
  { apply (f_equal String.length) in Hp. rewrite string_length_append in Hp.
    simpl in Hp. lia. }
  destruct p as [| c1 [| c2 [| c3 [| c4 p]]]]; try discriminate Hlen.
  discriminate Hp.
Qed.

(** X20: two operations get the same file name exactly when they are of the
    same kind and their names agree once the first letter is put in upper
    case. So the file of a query is never the file of a mutation, whereas
    [now] and [Now] of one kind share a file. The file names of the nodes
    built are these, in the order of the selected operations. *)
Theorem fileName_collisions (operation operation' : Operation) :
  (fileNameOf operation = fileNameOf operation'
   ↔ op_kind operation = op_kind operation'
     ∧ upperFirst (op_name operation) = upperFirst (op_name operation'))
  ∧ ∀ (prettier_format : string → option string) (argv : GenerateArgv)
      (operations : list Operation) (types : TypeCatalog) (nodes : list Node),
      buildNodes prettier_format argv operations types = Some nodes →
      map node_fileName nodes
      = map fileNameOf (List.filter (requested argv) operations).
Proof.
  split.
  - unfold fileNameOf. split.
    + intros Heq. apply string_append_inj_r in Heq.
      destruct (op_kind operation), (op_kind operation').
      * split; [reflexivity |]. now apply string_append_inj_r in Heq.
      * exfalso. now apply query_mutation_suffix in Heq.
      * exfalso. symmetry in Heq. now apply query_mutation_suffix in Heq.
      * split; [reflexivity |]. now apply string_append_inj_r in Heq.
    + intros [-> ->]. reflexivity.
  - intros prettier_format argv operations types. unfold buildNodes.
    fold (requested argv).
    induction (List.filter (requested argv) operations)
      as [| selected rest IH]; intros nodes Hnodes.
    + now injection Hnodes as <-.
    + cbn -[generateCodeForOperation] in Hnodes.
      destruct (generateCodeForOperation prettier_format selected types
                  defaultMaxFieldsSelectionDepth) as [code |]; [| discriminate].
      cbn -[generateCodeForOperation] in Hnodes.
      destruct (mapM _ rest) as [built |] eqn:Hrest; [| discriminate].
      injection Hnodes as <-. simpl. f_equal. now apply IH.
Qed.

Lemma fileName_collisions_witness :
  fileNameOf nowOperation
  = fileNameOf {| op_kind := query; op_name := "Now"; op_astValue := nowField |}.
Proof.
  exact (proj2 (proj1 (fileName_collisions nowOperation
                         {| op_kind := query; op_name := "Now";
                            op_astValue := nowField |}))
           (conj eq_refl eq_refl)).
Defined.

Lemma contributedOperations_elem node operation :
  operation ∈ contributedOperations node
  ↔ ∃ fields,
      node = ObjectTypeDefinition (rootName (op_kind operation)) (Some fields)
      ∧ op_astValue operation ∈ fields
      ∧ op_name operation = field_name (op_astValue operation).
Proof.
  destruct node as [name fields | kind name]; simpl.
  2: { split; [intros Hin; now apply not_elem_of_nil in Hin |].
       intros (fields & Heq & _). discriminate Heq. }
  assert (∀ kind (fs : list FieldDefinitionNode),
            operation ∈ operationOf kind <$> fs
            ↔ op_kind operation = kind ∧ op_astValue operation ∈ fs
              ∧ op_name operation = field_name (op_astValue operation)) as Hmap.
  { intros kind fs. rewrite list_elem_of_fmap. split.
    - intros (field & -> & Hfield). simpl. auto.
    - intros (<- & Hfield & Hname). exists (op_astValue operation).
      split; [| exact Hfield]. destruct operation as [k n a]. simpl in *.
      now subst n. }
  destruct (decide (name = "Mutation")) as [-> | HM];
    [| destruct (decide (name = "Query")) as [-> | HQ]].
  - rewrite Hmap. split.
    + intros (Hkind & Hfield & Hname). destruct fields as [fs |];
        [| now apply not_elem_of_nil in Hfield].
      exists fs. rewrite Hkind. auto.
    + intros (fs & Heq & Hfield & Hname).
      destruct (op_kind operation); [discriminate Heq |].
      injection Heq as ->. auto.
  - rewrite Hmap. split.
    + intros (Hkind & Hfield & Hname). destruct fields as [fs |];
        [| now apply not_elem_of_nil in Hfield].
      exists fs. rewrite Hkind. auto.
    + intros (fs & Heq & Hfield & Hname).
      destruct (op_kind operation); [| discriminate Heq].
      injection Heq as ->. auto.
  - split; [intros Hin; now apply not_elem_of_nil in Hin |].
    intros (fs & Heq & _). injection Heq as -> _.
    destruct (op_kind operation); contradiction.
Qed.

(** X21: the operations found are exactly the root fields: a descriptor is
    in the list if and only if its field is declared by some definition
    named after its kind (Query for a query, Mutation for a mutation), and
    its name is the name of that field. No descriptor is made up and no
    root field is left out. *)
Theorem operations_are_the_root_fields
    (schema : DocumentNode) (operations : list Operation) (types : TypeCatalog)
    (Hfound : findOperationsAndTypes schema = Some (operations, types))
    (operation : Operation) :
  operation ∈ operations
  ↔ ∃ fields,
      ObjectTypeDefinition (rootName (op_kind operation)) (Some fields) ∈ schema
      ∧ op_astValue operation ∈ fields
      ∧ op_name operation = field_name (op_astValue operation).
Proof.
  assert (rootFieldsPresent schema = true) as Hroot.
  { destruct (rootFieldsPresent schema) eqn:Hroot; [reflexivity |].
    unfold findOperationsAndTypes in Hfound.
    rewrite (visit_throws schema Hroot) in Hfound. discriminate. }
  destruct (visit_operations schema [] ∅ Hroot) as [types' Hvisit].
  unfold findOperationsAndTypes in Hfound. rewrite Hvisit in Hfound.
  injection Hfound as <- _. simpl. rewrite list_elem_of_bind. split.
  - intros (node & Hin & Hnode).
    apply contributedOperations_elem in Hin as (fields & -> & Hfield & Hname).
    eauto.
  - intros (fields & Hnode & Hfield & Hname).
    exists (ObjectTypeDefinition (rootName (op_kind operation)) (Some fields)).
    split; [| exact Hnode]. apply contributedOperations_elem. eauto.
Qed.

Lemma operations_are_the_root_fields_witness :
  findOperationsAndTypes nowSchema = Some ([nowOperation], ∅)
  ∧ (nowOperation ∈ [nowOperation]
     ↔ ∃ fields,
         ObjectTypeDefinition "Query" (Some fields) ∈ nowSchema
         ∧ nowField ∈ fields
         ∧ "now" = field_name nowField).
Proof.
  split; [reflexivity |].
  exact (operations_are_the_root_fields nowSchema [nowOperation] ∅ eq_refl nowOperation).
Defined.
